(** * iotd: subscription store, plugin registry and dispatch

    A shallow embedding of [iotd.py] and of the delivery loops of its two
    plugins ([plugins/kjilat.py], [plugins/bigpanda.py]).

    Modelling conventions.
    - A Python exception is a [Raise e] result; a function that raises
      before [write_text] leaves the subscription file as it was.
    - The subscription file is modelled by what [exists()], [read_text()]
      and [toml.loads] make of it: it is missing, unreadable, not valid
      TOML, or it parses to a document.
    - What [write_text(toml.dumps(data))] leaves for a later
      [toml.loads(read_text())] is up to [toml], a library this program
      only calls: [toml.dumps] may raise, and the text it writes may read
      back as [data], as another document, or not at all.  Module [store]
      has [subscribe] and [unsubscribe] with this write step as a
      parameter.  The definitions [subscribe] and [unsubscribe] outside
      the module are the two operations with a writer whose text reads
      back as the document written.
    - TOML values are strings, arrays and tables.  Numbers, booleans and
      dates, which the program never writes, are left out.
    - A Python [dict] is an association list in insertion order.
    - [list(set(xs))] has an order that depends on the interpreter's hash
      seed; it is a parameter of [subscribe], constrained by [set_order]. *)

From Stdlib Require Import String Ascii List ZArith Bool Lia Permutation.
From Stdlib Require Import DecimalString DecimalZ DecimalPos.
Import ListNotations.

Local Open Scope string_scope.
Local Open Scope list_scope.
Local Open Scope Z_scope.

(** ** Exceptions *)

Inductive exn : Type :=
| TomlDecodeError
| OSError
| AttributeError
| TypeError
| ValueError
| KeyError
| IndexError
| ImportError
| ZeroDivisionError
| OverflowError
| TelegramError (text : string).

Inductive result (A : Type) : Type :=
| Ok (a : A)
| Raise (e : exn).

Arguments Ok {A} a.
Arguments Raise {A} e.

Definition bind {A B : Type} (c : result A) (k : A -> result B) : result B :=
  match c with
  | Ok a => k a
  | Raise e => Raise e
  end.

Notation "x <- c ;; k" := (bind c (fun x => k))
  (at level 61, c at next level, right associativity).

(** ** Python values read from TOML *)

#[local] Set Warnings "-register-all".

Inductive value : Type :=
| VStr (s : string)
| VList (l : list value)
| VDict (d : list (string * value)).

(** ** Dictionaries *)

Definition dict (A : Type) : Type := list (string * A).

Fixpoint dict_get {A : Type} (k : string) (d : dict A) : option A :=
  match d with
  | [] => None
  | (k', v) :: d' => if String.eqb k' k then Some v else dict_get k d'
  end.

(** [k in d] *)
Definition dict_mem {A : Type} (k : string) (d : dict A) : bool :=
  match dict_get k d with
  | Some _ => true
  | None => false
  end.

(** [d[k] = v]: an existing key keeps its place, a new one goes last. *)
Fixpoint dict_set {A : Type} (k : string) (v : A) (d : dict A) : dict A :=
  match d with
  | [] => [(k, v)]
  | (k', v') :: d' =>
      if String.eqb k' k then (k, v) :: d' else (k', v') :: dict_set k v d'
  end.

(** [del d[k]] *)
Definition dict_del {A : Type} (k : string) (d : dict A) : dict A :=
  filter (fun kv => negb (String.eqb (fst kv) k)) d.

Definition keys {A : Type} (d : dict A) : list string := map fst d.

(** [d[k]] *)
Definition getitem {A : Type} (k : string) (d : dict A) : result A :=
  match dict_get k d with
  | Some v => Ok v
  | None => Raise KeyError
  end.

(** ** [str(int)] and [int(str)] *)

Definition str (z : Z) : string := NilZero.string_of_int (Z.to_int z).

Definition is_digit (a : ascii) : bool :=
  let n := nat_of_ascii a in (48 <=? n)%nat && (n <=? 57)%nat.

(** White space of the ASCII range, as [int()] strips it. *)
Definition is_space (a : ascii) : bool :=
  let n := nat_of_ascii a in
  ((9 <=? n)%nat && (n <=? 13)%nat) || ((28 <=? n)%nat && (n <=? 32)%nat).

Fixpoint lstrip (s : string) : string :=
  match s with
  | EmptyString => EmptyString
  | String a s' => if is_space a then lstrip s' else s
  end.

Fixpoint rstrip (s : string) : string :=
  match s with
  | EmptyString => EmptyString
  | String a s' =>
      match rstrip s' with
      | EmptyString => if is_space a then EmptyString else String a EmptyString
      | r => String a r
      end
  end.

Definition strip (s : string) : string := rstrip (lstrip s).

(** Decimal digits in groups separated by single underscores; the
    underscores are dropped. *)
Fixpoint digit_groups (s : string) (after_digit : bool) : option string :=
  match s with
  | EmptyString => if after_digit then Some EmptyString else None
  | String a s' =>
      if Ascii.eqb a "_" then
        if after_digit then digit_groups s' false else None
      else if is_digit a then option_map (String a) (digit_groups s' true)
      else None
  end.

Definition unsigned_of_str (s : string) : option Z :=
  match digit_groups s false with
  | Some ds => option_map Z.of_uint (NilEmpty.uint_of_string ds)
  | None => None
  end.

(** [int(s)] on ASCII text: optional white space around an optional sign
    and a decimal literal. *)
Definition int_of_str (s : string) : result Z :=
  let t := strip s in
  let parsed :=
    match t with
    | EmptyString => None
    | String a r =>
        if Ascii.eqb a "-" then option_map Z.opp (unsigned_of_str r)
        else if Ascii.eqb a "+" then unsigned_of_str r
        else unsigned_of_str t
    end in
  match parsed with
  | Some z => Ok z
  | None => Raise ValueError
  end.

(** ** Operators on values *)

(** [p in s] for strings. *)
Fixpoint is_substring (p s : string) : bool :=
  if String.prefix p s then true
  else match s with
       | EmptyString => false
       | String _ s' => is_substring p s'
       end.

(** [v == p] for a string [p]. *)
Definition is_str (p : string) (v : value) : bool :=
  match v with
  | VStr s => String.eqb s p
  | _ => false
  end.

(** [p in v] *)
Definition contains (p : string) (v : value) : bool :=
  match v with
  | VStr s => is_substring p s
  | VList l => existsb (is_str p) l
  | VDict d => dict_mem p d
  end.

(** [not v] *)
Definition falsy (v : value) : bool :=
  match v with
  | VStr EmptyString => true
  | VList [] => true
  | VDict [] => true
  | _ => false
  end.

(** [v.get(k, default)]: only a table has the method. *)
Definition py_get (v : value) (k : string) (default : value) : result value :=
  match v with
  | VDict t =>
      match dict_get k t with
      | Some x => Ok x
      | None => Ok default
      end
  | _ => Raise AttributeError
  end.

(** [v + l] for a list [l]. *)
Definition py_add (v : value) (l : list value) : result (list value) :=
  match v with
  | VList l0 => Ok (l0 ++ l)
  | _ => Raise TypeError
  end.

(** The elements of [set(l)] before any reordering: every element has to
    be hashable, and of the modelled values only strings are. *)
Fixpoint hashables (l : list value) : result (list string) :=
  match l with
  | [] => Ok []
  | VStr s :: l' => ss <- hashables l' ;; Ok (s :: ss)
  | _ :: _ => Raise TypeError
  end.

(** [l.remove(p)]: drops the first element equal to [p]. *)
Fixpoint list_remove (p : string) (l : list value) : result (list value) :=
  match l with
  | [] => Raise ValueError
  | v :: l' =>
      if is_str p v then Ok l'
      else l'' <- list_remove p l' ;; Ok (v :: l'')
  end.

(** What [list(set(xs))] may return: the elements of [xs], each once. *)
Definition set_order (list_set : list string -> list string) : Prop :=
  forall xs, NoDup (list_set xs) /\ forall x, In x (list_set xs) <-> In x xs.

(** ** The subscription file *)

Inductive file : Type :=
| Missing
| Unreadable
| Corrupt
| Doc (d : dict value).

(** [SUBSCRIPTIONS_CONFIG.exists()] *)
Definition exists_ (f : file) : bool :=
  match f with
  | Missing => false
  | _ => true
  end.

(** [toml.loads(SUBSCRIPTIONS_CONFIG.read_text())] *)
Definition load (f : file) : result (dict value) :=
  match f with
  | Missing => Raise OSError
  | Unreadable => Raise OSError
  | Corrupt => Raise TomlDecodeError
  | Doc d => Ok d
  end.

(** [data[user][k] = v] *)
Definition setitem2 (user k : string) (v : value) (data : dict value)
  : result (dict value) :=
  r <- getitem user data ;;
  match r with
  | VDict t => Ok (dict_set user (VDict (dict_set k v t)) data)
  | _ => Raise TypeError
  end.

(** ** Store operations *)

Definition subscriptions (user : Z) (f : file) : result value :=
  let user := str user in
  if negb (exists_ f) then Ok (VList [])
  else
    config <- load f ;;
    if negb (dict_mem user config) then Ok (VList [])
    else
      r <- getitem user config ;;
      py_get r "subscriptions" (VList []).

(** [subscribe] with a writer whose text reads back as the document
    written: the file after the call is [Doc data].  The operation with
    its write step is [store.subscribe]. *)
Definition subscribe (list_set : list string -> list string)
    (user : Z) (plugin_name : string) (name : option string) (f : file)
  : result file :=
  let user := str user in
  data <- (if exists_ f then load f else Ok []) ;;
  let data := if negb (dict_mem user data)
              then dict_set user (VDict []) data else data in
  r <- getitem user data ;;
  old <- py_get r "subscriptions" (VList []) ;;
  joined <- py_add old [VStr plugin_name] ;;
  elems <- hashables joined ;;
  data <- setitem2 user "subscriptions"
            (VList (map VStr (list_set elems))) data ;;
  data <- match name with
          | Some n => setitem2 user "name" (VStr n) data
          | None => Ok data
          end ;;
  Ok (Doc data).

(** [unsubscribe] with the same writer; [store.unsubscribe] has the write
    step. *)
Definition unsubscribe (user : Z) (plugin_name : string) (f : file)
  : result file :=
  let user := str user in
  data <- (if exists_ f then load f else Ok []) ;;
  let data := if negb (dict_mem user data)
              then dict_set user (VList []) data else data in
  r <- getitem user data ;;
  old <- py_get r "subscriptions" (VList []) ;;
  data <- (if contains plugin_name old then
             r <- getitem user data ;;
             t <- match r with VDict t => Ok t | _ => Raise TypeError end ;;
             cur <- getitem "subscriptions" t ;;
             l <- match cur with
                  | VList l => list_remove plugin_name l
                  | _ => Raise AttributeError
                  end ;;
             setitem2 user "subscriptions" (VList l) data
           else Ok data) ;;
  r <- getitem user data ;;
  left <- py_get r "subscriptions" (VList []) ;;
  let data := if falsy left then dict_del user data else data in
  Ok (Doc data).

Fixpoint subscriber_loop (plugin_name : option string) (users : dict value)
  : result (list Z) :=
  match users with
  | [] => Ok []
  | (user, userdata) :: rest =>
      keep <- match plugin_name with
              | None => Ok true
              | Some p =>
                  s <- py_get userdata "subscriptions" (VList []) ;;
                  Ok (contains p s)
              end ;;
      if keep then
        z <- int_of_str user ;;
        zs <- subscriber_loop plugin_name rest ;;
        Ok (z :: zs)
      else subscriber_loop plugin_name rest
  end.

Definition subscriber (plugin_name : option string) (f : file)
  : result (list Z) :=
  if negb (exists_ f) then Ok []
  else
    users <- load f ;;
    subscriber_loop plugin_name users.

(** The file after a call: a call that raises has not written it. *)
Definition after (call : file -> result file) (f : file) : file :=
  match call f with
  | Ok f' => f'
  | Raise _ => f
  end.

(** The record stored for a user, if any. *)
Definition record_of (user : Z) (f : file) : option value :=
  match f with
  | Doc d => dict_get (str user) d
  | _ => None
  end.

(** One possible [list(set(xs))]: first occurrences, in order. *)
Definition nodup_str : list string -> list string := nodup string_dec.

(** ** The process and its surroundings *)

Inductive level : Type := INFO | WARNING | ERROR.

(** What the process does, in order: a log line, a call of [subscriber],
    a read of the secrets file, a call of a plugin's [run], and the calls
    of the transport. *)
Inductive event : Type :=
| Log (lvl : level) (msg : string)
| QueryStore (plugin_name : option string)
| ReadSecrets
| Invoke (plugin_name : string) (chat_ids : list Z)
| SendMessage (chat_id : Z) (text : string)
| SendPhoto (chat_id : Z) (photo caption : string).

Record world : Type := {
  store : file;
  secrets : file;
  trace : list event
}.

Definition M (A : Type) : Type := world -> result A * world.

Definition ret {A : Type} (a : A) : M A := fun w => (Ok a, w).

Definition raise {A : Type} (e : exn) : M A := fun w => (Raise e, w).

Definition bindM {A B : Type} (c : M A) (k : A -> M B) : M B :=
  fun w =>
    match c w with
    | (Ok a, w') => k a w'
    | (Raise e, w') => (Raise e, w')
    end.

Notation "x <~ c ;; k" := (bindM c (fun x => k))
  (at level 61, c at next level, right associativity).

(** The world with more events at the end of its trace. *)
Definition add_trace (w : world) (evs : list event) : world :=
  {| store := store w; secrets := secrets w; trace := trace w ++ evs |}.

Definition emit (ev : event) : M unit :=
  fun w => (Ok tt, add_trace w [ev]).

Definition lift {A : Type} (r : result A) : M A := fun w => (r, w).

(** [logging.info], [logging.error] *)
Definition logging_info (msg : string) : M unit := emit (Log INFO msg).
Definition logging_error (msg : string) : M unit := emit (Log ERROR msg).

(** [subscriber(plugin_name)] as the process calls it. *)
Definition call_subscriber (plugin_name : option string) : M (list Z) :=
  fun w =>
    let (r, w') := emit (QueryStore plugin_name) w in
    (subscriber plugin_name (store w'), w').

(** [toml.loads(SECRETS_FILE.read_text())] *)
Definition read_secrets : M (dict value) :=
  fun w =>
    let (r, w') := emit ReadSecrets w in
    (load (secrets w'), w').

(** The messaging transport: for each call, [None] when the message is
    delivered and [Some e] when the call raises a [TelegramError] whose
    text is [e]. *)
Record transport : Type := {
  send_message : Z -> string -> option string;
  send_photo : Z -> string -> string -> option string
}.

(** A call of the transport: the attempt is seen outside, then the call
    returns or raises. *)
Definition attempt (ev : event) (outcome : option string) : M unit :=
  _ <~ emit ev ;;
  match outcome with
  | None => ret tt
  | Some e => raise (TelegramError e)
  end.

(** [bot.send_message(chat_id=chat_id, text=text, ...)] *)
Definition bot_send_message (bot : transport) (chat_id : Z) (text : string)
  : M unit :=
  attempt (SendMessage chat_id text) (send_message bot chat_id text).

(** [bot.send_photo(chat_id=chat_id, photo=photo, caption=caption, ...)] *)
Definition bot_send_photo (bot : transport) (chat_id : Z)
    (photo caption : string) : M unit :=
  attempt (SendPhoto chat_id photo caption) (send_photo bot chat_id photo caption).

(** [try: body except Exception as e: handler(e)]; every exception of the
    model is an [Exception]. *)
Definition try_except {A : Type} (body : M A) (handler : exn -> M A) : M A :=
  fun w =>
    match body w with
    | (Ok a, w') => (Ok a, w')
    | (Raise e, w') => handler e w'
    end.

(** [str(e)].  The errors of the transport carry their text; of the other
    exceptions, which no send raises, only the class is modelled. *)
Definition exn_text (e : exn) : string :=
  match e with
  | TelegramError text => text
  | TomlDecodeError => "TomlDecodeError"
  | OSError => "OSError"
  | AttributeError => "AttributeError"
  | TypeError => "TypeError"
  | ValueError => "ValueError"
  | KeyError => "KeyError"
  | IndexError => "IndexError"
  | ImportError => "ImportError"
  | ZeroDivisionError => "ZeroDivisionError"
  | OverflowError => "OverflowError"
  end.

(** [f"'{e}' for {chat_id}"] *)
Definition failure_line (e : string) (chat_id : Z) : string :=
  ("'" ++ e ++ "' for " ++ str chat_id)%string.

(** [for x in xs: body(x)] *)
Fixpoint for_each {A : Type} (xs : list A) (body : A -> M unit) : M unit :=
  match xs with
  | [] => ret tt
  | x :: xs' => _ <~ body x ;; for_each xs' body
  end.

(** ** Plugins *)

(** A plugin module: the attributes the bot looks at. *)
Record plugin : Type := {
  HOUR : option Z;
  MINUTE : option Z;
  NAME : option string;
  run : option (transport -> list Z -> dict value -> M unit)
}.

Record PluginSource : Type := {
  list_plugins : list string;
  load_plugin : string -> result plugin
}.

Definition hasattr {A : Type} (attr : option A) : bool :=
  match attr with
  | Some _ => true
  | None => false
  end.

(** [getattr(plugin, attr, default)] *)
Definition getattr {A : Type} (attr : option A) (default : A) : A :=
  match attr with
  | Some a => a
  | None => default
  end.

Fixpoint load_plugins_loop (load_plugin : string -> result plugin)
    (plugin_names : list string) (plugins : dict plugin)
  : result (dict plugin) :=
  match plugin_names with
  | [] => Ok plugins
  | plugin_name :: rest =>
      p <- load_plugin plugin_name ;;
      if hasattr (HOUR p) && hasattr (MINUTE p) && hasattr (run p)
      then load_plugins_loop load_plugin rest (dict_set plugin_name p plugins)
      else load_plugins_loop load_plugin rest plugins
  end.

Definition load_plugins (plugin_source : PluginSource) : result (dict plugin) :=
  load_plugins_loop (load_plugin plugin_source) (list_plugins plugin_source) [].

Definition plugin_hour (p : plugin) : Z := getattr (HOUR p) 0.

Definition plugin_minute (p : plugin) : Z := getattr (MINUTE p) 0.

Definition plugin_long_name (p : plugin) (plugin_name : string) : string :=
  getattr (NAME p) plugin_name.

(** ** Scheduling *)

Record job : Type := {
  job_name : string;
  hour : Z;
  minute : Z;
  second : Z
}.

(** The integer fits a C [int]. *)
Definition c_int (z : Z) : bool := (-2147483648 <=? z) && (z <=? 2147483647).

(** [datetime.time(hour=h, minute=m, second=s, ...)]: the arguments are
    first converted to C integers, which raises [OverflowError] for one
    that does not fit, and then checked against their ranges. *)
Definition datetime_time (h m s : Z) : result (Z * Z * Z) :=
  if negb (c_int h && c_int m && c_int s) then Raise OverflowError
  else if (0 <=? h) && (h <? 24) && (0 <=? m) && (m <? 60)
          && (0 <=? s) && (s <? 60)
  then Ok (h, m, s) else Raise ValueError.

(** [schedule_plugin_messages]: the job queue after the loop. *)
Fixpoint schedule_plugin_messages (plugins : dict plugin) (job_queue : list job)
  : result (list job) :=
  match plugins with
  | [] => Ok job_queue
  | (plugin_name, p) :: rest =>
      t <- datetime_time (plugin_hour p) (plugin_minute p) 0 ;;
      let '(h, m, s) := t in
      schedule_plugin_messages rest
        (job_queue ++ [{| job_name := plugin_name; hour := h;
                          minute := m; second := s |}])
  end.

(** ** Dispatch *)

Record Bot : Type := {
  updater_bot : transport;
  plugins : dict plugin
}.

Definition run_plugin_named (self : Bot) (plugin_name : string) : M unit :=
  if dict_mem plugin_name (plugins self) then
    subscribers <~ call_subscriber (Some plugin_name) ;;
    _ <~ logging_info ("Running: " ++ plugin_name ++ " for "
                       ++ str (Z.of_nat (length subscribers))
                       ++ " subscriber[s]")%string ;;
    p <~ lift (getitem plugin_name (plugins self)) ;;
    f <~ match run p with
         | Some f => ret f
         | None => raise AttributeError
         end ;;
    config <~ read_secrets ;;
    _ <~ emit (Invoke plugin_name subscribers) ;;
    f (updater_bot self) subscribers config
  else
    logging_error ("Running (not found): " ++ plugin_name)%string.

Definition psa (self : Bot) (message : string) : M unit :=
  chat_ids <~ call_subscriber None ;;
  _ <~ logging_info ("PSAing " ++ str (Z.of_nat (length chat_ids))
                     ++ " people.")%string ;;
  for_each chat_ids (fun chat_id =>
    try_except
      (bot_send_message (updater_bot self) chat_id message)
      (fun e => logging_error (failure_line (exn_text e) chat_id))).

(** ** plugins/kjilat.py *)

Module kjilat.

Record Image : Type := {
  index : Z;
  title : string;
  url : string
}.

(** [Image.for_index] *)
Definition for_index (index : Z) (images : list (dict string)) : result Image :=
  index <- (if (length images =? 0)%nat then Raise ZeroDivisionError
            else Ok (index mod Z.of_nat (length images))) ;;
  image <- match nth_error images (Z.to_nat index) with
           | Some image => Ok image
           | None => Raise IndexError
           end ;;
  t <- getitem "img" image ;;
  u <- getitem "src" image ;;
  Ok {| index := index; title := t; url := u |}.

(** [Image.daily()], from the day count of [day()] and the image list in
    the YAML file. *)
Definition daily (day : Z) (images : list (dict string)) : result Image :=
  for_index day images.

(** [run]; [daily] is the result of [Image.daily()]. *)
Definition run (daily : result Image)
    (bot : transport) (chat_ids : list Z) (secrets : dict value) : M unit :=
  image <~ lift daily ;;
  for_each chat_ids (fun chat_id =>
    try_except
      (bot_send_photo bot chat_id (url image) (title image))
      (fun e => logging_error (failure_line (exn_text e) chat_id))).

End kjilat.

(** ** plugins/bigpanda.py *)

Module bigpanda.

(** What [run] has in hand when its loop starts. *)
Record post : Type := {
  image : string;
  post_url : string;
  today : string
}.

Definition dquote : string := String (ascii_of_nat 34) EmptyString.

Definition caption (p : post) : string :=
  ("Good Morning Panda of the day 🤗 (" ++ today p ++ ") <a href="
   ++ dquote ++ post_url p ++ dquote ++ ">🐼🌏</a>")%string.

(** [run]; [fetch] stands for everything before the loop (the Reddit
    query, the cache update, the download), which reads [secrets] and may
    raise. *)
Definition run (fetch : dict value -> result post)
    (bot : transport) (chat_ids : list Z) (secrets : dict value) : M unit :=
  p <~ lift (fetch secrets) ;;
  for_each chat_ids (fun chat_id =>
    try_except
      (bot_send_photo bot chat_id (image p) (caption p))
      (fun e => logging_error (failure_line (exn_text e) chat_id))).

End bigpanda.

(** ** Vocabulary of the properties *)

Fixpoint all_digits (s : string) : bool :=
  match s with
  | EmptyString => true
  | String a s' => is_digit a && all_digits s'
  end.

(** The file a call starts from: a missing file counts as empty. *)
Definition load_or_empty (f : file) : result (dict value) :=
  if exists_ f then load f else Ok [].

(** [t.get("subscriptions", [])] for a table [t]. *)
Definition old_subs (t : dict value) : value :=
  match dict_get "subscriptions" t with
  | Some x => x
  | None => VList []
  end.

(** The table behind [data[user]] once [subscribe] has made sure that the
    key is there. *)
Definition table_of (r : option value) : result (dict value) :=
  match r with
  | None => Ok []
  | Some (VDict t) => Ok t
  | Some _ => Raise AttributeError
  end.

Definition with_name (name : option string) (t : dict value) : dict value :=
  match name with
  | Some n => dict_set "name" (VStr n) t
  | None => t
  end.

(** A record as [subscribe] and [unsubscribe] leave it: a table whose
    subscription list is a non-empty list of distinct strings. *)
Definition wf_record (r : value) : Prop :=
  exists t l, r = VDict t
    /\ dict_get "subscriptions" t = Some (VList (map VStr l))
    /\ NoDup l /\ l <> [].

Definition wf_doc (d : dict value) : Prop :=
  NoDup (keys d)
  /\ Forall (fun kr => (exists z, fst kr = str z) /\ wf_record (snd kr)) d.

Definition wf_file (f : file) : Prop :=
  match f with
  | Missing => True
  | Doc d => wf_doc d
  | _ => False
  end.

(** The files the two mutating operations can produce, starting with no
    file at all, when every write reads back as the document written;
    [store.reached] has the other writes. *)
Inductive reachable : file -> Prop :=
| reach_init : reachable Missing
| reach_subscribe f list_set user plugin_name name :
    reachable f -> set_order list_set ->
    reachable (after (subscribe list_set user plugin_name name) f)
| reach_unsubscribe f user plugin_name :
    reachable f ->
    reachable (after (unsubscribe user plugin_name) f).






(** A list of strings without the string [p]. *)
Definition without (p : string) (l : list string) : list string :=
  filter (fun s => negb (String.eqb s p)) l.

(** The condition of the comprehension in [subscriber], on a record. *)
Definition selected (plugin_name : option string) (r : value) : Prop :=
  match plugin_name with
  | None => True
  | Some p => exists t, r = VDict t /\ contains p (old_subs t) = true
  end.

(** What one turn of a delivery loop adds to the trace: the attempt, and
    the error line when the attempt raises. *)
Definition turn (send : Z -> event) (outcome : Z -> option string)
    (chat_id : Z) : list event :=
  send chat_id ::
  match outcome chat_id with
  | None => []
  | Some e => [Log ERROR (failure_line e chat_id)]
  end.

(** A store with two users, used in the examples. *)
Definition example_store : file :=
  Doc [("7", VDict [("subscriptions", VList [VStr "kjilat"]);
                    ("name", VStr "Bo")]);
       ("42", VDict [("subscriptions", VList [VStr "kjilat"; VStr "panda"])])].

(** Another possible [list(set(xs))]: last occurrences first. *)
Definition rev_nodup_str (xs : list string) : list string := rev (nodup_str xs).

(** A candidate plugin that has [run] and [MINUTE] but no [HOUR]. *)
Definition late_plugin : plugin :=
  {| HOUR := None; MINUTE := Some 30; NAME := Some "Late";
     run := Some (fun _ _ _ => ret tt) |}.

Definition late_source : PluginSource :=
  {| list_plugins := ["late"]; load_plugin := fun _ => Ok late_plugin |}.

(** A transport on which every send to chat 2 raises. *)
Definition flaky_bot : transport :=
  {| send_message := fun chat_id _ =>
       if chat_id =? 2 then Some "Forbidden" else None;
     send_photo := fun chat_id _ _ =>
       if chat_id =? 2 then Some "Forbidden" else None |}.

Definition three_users : file :=
  Doc [("1", VDict [("subscriptions", VList [VStr "panda"])]);
       ("2", VDict [("subscriptions", VList [VStr "panda"])]);
       ("3", VDict [("subscriptions", VList [VStr "panda"])])].

Definition world0 : world :=
  {| store := three_users; secrets := Doc []; trace := [] |}.

Definition panda_post : bigpanda.post :=
  {| bigpanda.image := "jpeg"; bigpanda.post_url := "https://reddit.com/r/panda/1";
     bigpanda.today := "2021-05-04" |}.

Definition panda_plugin : plugin :=
  {| HOUR := Some 8; MINUTE := Some 51; NAME := Some "STD Panda of the Day";
     run := Some (bigpanda.run (fun _ => Ok panda_post)) |}.

Definition kim : kjilat.Image :=
  {| kjilat.index := 0; kjilat.title := "looking at corn";
     kjilat.url := "https://example.org/corn.jpg" |}.

(** ** Vocabulary of the further properties *)

(** The job [schedule_plugin_messages] makes for one entry of the plugin
    map. *)
Definition job_of (entry : string * plugin) : job :=
  {| job_name := fst entry; hour := plugin_hour (snd entry);
     minute := plugin_minute (snd entry); second := 0 |}.

(** The firing time of a plugin is one [datetime.time] accepts. *)
Definition time_ok (p : plugin) : Prop :=
  0 <= plugin_hour p < 24 /\ 0 <= plugin_minute p < 60.

(** A candidate has the three attributes [load_plugins] asks for. *)
Definition qualifies (p : plugin) : Prop :=
  HOUR p <> None /\ MINUTE p <> None /\ run p <> None.

(** A plugin source with one candidate that lacks [HOUR] and one that has
    everything. *)
Definition two_candidates : PluginSource :=
  {| list_plugins := ["late"; "panda"];
     load_plugin := fun k => if String.eqb k "late"
                             then Ok late_plugin else Ok panda_plugin |}.

(** A store made by two calls of [subscribe]. *)
Definition example_store_reached : file :=
  after (subscribe nodup_str 42 "kjilat" None)
    (after (subscribe nodup_str 42 "panda" (Some "Ann")) Missing).

Definition kim_plugin : plugin :=
  {| HOUR := Some 14; MINUTE := Some 47;
     NAME := Some "Kim Jong-Il Looking at Things";
     run := Some (kjilat.run (Ok kim)) |}.

Definition kim_bot : Bot :=
  {| updater_bot := flaky_bot;
     plugins := [("panda", panda_plugin); ("kjilat", kim_plugin)] |}.

Definition world1 : world :=
  {| store := example_store_reached; secrets := Doc []; trace := [] |}.

(** ** The secrets file *)

(** [verify_secrets], on what the secrets file holds. *)
Definition verify_secrets (f : file) : result unit :=
  if negb (exists_ f) then Raise ValueError
  else
    secrets <- load f ;;
    if negb (dict_mem "telegram" secrets) then Raise ValueError
    else
      t <- getitem "telegram" secrets ;;
      if negb (contains "bot_id" t) then Raise ValueError
      else Ok tt.

(** [v[k]] for a string [k]: only a table can be indexed by a string. *)
Definition py_index (v : value) (k : string) : result value :=
  match v with
  | VDict t => getitem k t
  | _ => Raise TypeError
  end.

(** [get_telegram_token] *)
Definition get_telegram_token (f : file) : result value :=
  secrets <- load f ;;
  t <- getitem "telegram" secrets ;;
  py_index t "bot_id".

(** ** Splitting and joining text *)

(** [s.split(sep)] for a separator of one character. *)
Fixpoint split_on (sep : ascii) (s : string) : list string :=
  match s with
  | EmptyString => [EmptyString]
  | String a s' =>
      if Ascii.eqb a sep then EmptyString :: split_on sep s'
      else match split_on sep s' with
           | [] => [String a EmptyString]
           | part :: parts => String a part :: parts
           end
  end.

(** The character [c] does not occur in [s]. *)
Fixpoint free_of (c : ascii) (s : string) : bool :=
  match s with
  | EmptyString => true
  | String a s' => negb (Ascii.eqb a c) && free_of c s'
  end.

Definition space : ascii := " "%char.

Definition newline : ascii := ascii_of_nat 10.

Definition nl : string := String newline EmptyString.

(** ** The chat commands *)

Module commands.

(** The chat an update comes from. *)
Record Chat : Type := {
  id : Z;
  first_name : option string;
  last_name : option string
}.

Record InlineKeyboardButton : Type := {
  text : string;
  callback_data : string
}.

(** What a command hands to [reply_text]. *)
Record reply : Type := {
  message : string;
  reply_markup : option (list (list InlineKeyboardButton));
  html : bool
}.

(** [f"{x}"] for a name that may be [None]. *)
Definition fmt (x : option string) : string :=
  match x with
  | Some s => s
  | None => "None"
  end.

(** [x or default] for an optional string. *)
Definition or_else (x : option string) (default : string) : string :=
  match x with
  | None => default
  | Some EmptyString => default
  | Some s => s
  end.

Definition plugin_long_name_from_short_name (self : Bot) (plugin_name : string)
  : option string :=
  if dict_mem plugin_name (plugins self) then
    match dict_get plugin_name (plugins self) with
    | Some p => Some (plugin_long_name p plugin_name)
    | None => None
    end
  else None.

(** One row with one button per plugin of the map. *)
Definition keyboard (action : string) (offered : dict plugin)
  : list (list InlineKeyboardButton) :=
  map (fun entry =>
         [{| text := plugin_long_name (snd entry) (fst entry);
             callback_data := (action ++ " " ++ fst entry)%string |}])
      offered.

Definition start (self : Bot) (chat : Chat) (f : file) : result reply :=
  user_subscriptions <- subscriptions (id chat) f ;;
  let subscribeable_plugins :=
    filter (fun entry => negb (contains (fst entry) user_subscriptions))
           (plugins self) in
  match subscribeable_plugins with
  | [] => Ok {| message := "You already subscribe to <b>everything</b>. :)";
                reply_markup := None; html := true |}
  | _ => Ok {| message :=
                 ("I am a telegram bot created by Hans that can send you daily "
                  ++ "images for a bunch of topics. "
                  ++ "What do you want to subscribe to?")%string;
               reply_markup := Some (keyboard "subscribe" subscribeable_plugins);
               html := false |}
  end.


(** The lines of the [subscriptions] command, one per plugin. *)
Definition status_lines (self : Bot) (user_subscriptions : value) : list string :=
  map (fun entry =>
         ((if contains (fst entry) user_subscriptions then "✅ " else "❌ ")
          ++ plugin_long_name (snd entry) (fst entry))%string)
      (plugins self).

(** [Bot.subscriptions] *)
Definition list_subscriptions (self : Bot) (chat : Chat) (f : file)
  : result reply :=
  user_subscriptions <- subscriptions (id chat) f ;;
  Ok {| message :=
          (String.concat nl (status_lines self user_subscriptions)
           ++ nl ++ nl ++ "Subscribe with /start and unsubscribe with /stop")%string;
        reply_markup := None; html := false |}.

(** A call of a store operation by the process: the file is replaced when
    the call returns. *)
Definition update_store (call : file -> result file) : M unit :=
  fun w =>
    match call (store w) with
    | Ok f' => (Ok tt, {| store := f'; secrets := secrets w; trace := trace w |})
    | Raise e => (Raise e, w)
    end.

(** [callback]: [data] is [update.callback_query.data]. *)
Definition callback (list_set : list string -> list string) (self : Bot)
    (chat : Chat) (data : string) : M unit :=
  match split_on space data with
  | [action; plugin] =>
      if String.eqb action "subscribe" then
        _ <~ update_store
               (subscribe list_set (id chat) plugin
                  (Some (fmt (first_name chat) ++ " " ++ fmt (last_name chat))%string)) ;;
        _ <~ bot_send_message (updater_bot self) (id chat)
               ("Successfully subscribed to "
                ++ or_else (plugin_long_name_from_short_name self plugin) "???")%string ;;
        logging_info ("Subscribe: " ++ fmt (first_name chat) ++ " "
                      ++ fmt (last_name chat) ++ " (" ++ str (id chat) ++ ") to "
                      ++ plugin)%string
      else if String.eqb action "unsubscribe" then
        _ <~ update_store (unsubscribe (id chat) plugin) ;;
        _ <~ bot_send_message (updater_bot self) (id chat)
               ("Successfully unsubscribed from "
                ++ or_else (plugin_long_name_from_short_name self plugin) "???")%string ;;
        logging_info ("Unsubscribe: " ++ fmt (first_name chat) ++ " "
                      ++ fmt (last_name chat) ++ " (" ++ str (id chat) ++ ") from "
                      ++ plugin)%string
      else ret tt
  | _ => raise ValueError
  end.

(** The callback data of the buttons of a reply. *)
Definition offered (r : reply) : list string :=
  match reply_markup r with
  | Some rows => map callback_data (List.concat rows)
  | None => []
  end.

End commands.

(** ** The URL cache of [bigpanda] *)

Module panda_cache.

(** The cache file: missing, unreadable, or its text. *)
Inductive text_file : Type :=
| NoFile
| Locked
| Text (s : string).

Definition POST_CACHE_COUNT : nat := 32.

Definition nonempty (s : string) : bool :=
  match s with
  | EmptyString => false
  | _ => true
  end.

Definition carriage_return : ascii := ascii_of_nat 13.

(** What [read_text()] returns for the characters in the file: reading in
    text mode turns a carriage return, alone or before a line feed, into
    one line feed. *)
Fixpoint universal_newlines (s : string) : string :=
  match s with
  | EmptyString => EmptyString
  | String a s' =>
      if Ascii.eqb a carriage_return then
        String newline
          match s' with
          | String b s'' =>
              if Ascii.eqb b newline then universal_newlines s''
              else universal_newlines s'
          | EmptyString => EmptyString
          end
      else String a (universal_newlines s')
  end.

(** [get_cache]; [Text s] is the file with the characters [s] in it. *)
Definition get_cache (f : text_file) : result (list string) :=
  match f with
  | NoFile => Ok []
  | Locked => Raise OSError
  | Text s => Ok (filter nonempty (split_on newline (universal_newlines s)))
  end.

(** [l[-n:]] *)
Definition last_n {A : Type} (n : nat) (l : list A) : list A :=
  match n with
  | O => l
  | _ => skipn (length l - n) l
  end.

(** [cache]: the file after the call. *)
Definition cache (entry : string) (f : text_file) : result text_file :=
  old <- get_cache f ;;
  Ok (Text (String.concat nl (last_n POST_CACHE_COUNT (old ++ [entry])))).

(** A Reddit post as [post_of_the_day] looks at it: [preview] is
    [post.preview["images"][0]["source"]["url"]], or [None] when that
    lookup raises [KeyError], [IndexError] or [AttributeError]. *)
Record submission : Type := {
  preview : option string;
  permalink : string
}.

Definition fallback : string * string :=
  ("https://i.redd.it/f46azqiqcg411.jpg",
   "https://www.youtube.com/watch?v=rEq1Z0bjdwc").

(** [x in l] for strings. *)
Definition mem (x : string) (l : list string) : bool :=
  existsb (String.eqb x) l.

(** The loop of [post_of_the_day] over the chained posts: the log lines it
    writes and what it returns. *)
Fixpoint pick (f : text_file) (posts : list submission)
  : list event * result (string * string) :=
  match posts with
  | [] => ([Log INFO "no image found. obi wan."], Ok fallback)
  | post :: rest =>
      match preview post with
      | None =>
          let (log, r) := pick f rest in
          (Log WARNING "Imageless post, skipping" :: log, r)
      | Some image_url =>
          let post_url := ("https://reddit.com" ++ permalink post)%string in
          match get_cache f with
          | Raise e => ([], Raise e)
          | Ok known =>
              if mem image_url known then
                let (log, r) := pick f rest in
                (Log WARNING "Image already known, skipping" :: log, r)
              else ([], Ok (image_url, post_url))
          end
      end
  end.

(** [post_of_the_day]: [top_posts] are the day's top posts and
    [fallback_posts] the all-time top posts after [random.shuffle]. *)
Definition post_of_the_day (f : text_file)
    (top_posts fallback_posts : list submission)
  : list event * result (string * string) :=
  pick f (top_posts ++ fallback_posts).

End panda_cache.

(** A post that [post_of_the_day] skips: it has no image, or its image is
    in the cache. *)
Definition stale (known : list string) (post : panda_cache.submission) : Prop :=
  match panda_cache.preview post with
  | None => True
  | Some image_url => panda_cache.mem image_url known = true
  end.

Definition ann : commands.Chat :=
  {| commands.id := 42; commands.first_name := Some "Ann";
     commands.last_name := None |}.

Definition day_posts : list panda_cache.submission :=
  [{| panda_cache.preview := None; panda_cache.permalink := "/r/panda/1" |}].

Definition all_time_posts : list panda_cache.submission :=
  [{| panda_cache.preview := Some "https://i.redd.it/a.jpg";
      panda_cache.permalink := "/r/panda/2" |};
   {| panda_cache.preview := Some "https://i.redd.it/b.jpg";
      panda_cache.permalink := "/r/panda/3" |}].

(** ** The store with its write step *)

(** The last line of [subscribe] and of [unsubscribe] is
    [SUBSCRIPTIONS_CONFIG.write_text(toml.dumps(data))].  What comes of it
    is up to [toml], which is not part of this program: [write data] stands
    for the outcome of that line, an error raised by [toml.dumps] before
    anything is written, or the file as [exists()], [read_text()] and
    [toml.loads] find it afterwards.  With [exact_writer], whose text reads
    back as the document written, the two operations below are [subscribe]
    and [unsubscribe] above. *)
Module store.

Definition writer : Type := dict value -> result file.

Definition exact_writer : writer := fun data => Ok (Doc data).

(** [subscribe] up to its last line: the document handed to
    [toml.dumps]. *)
Definition subscribe_data (list_set : list string -> list string)
    (user : Z) (plugin_name : string) (name : option string) (f : file)
  : result (dict value) :=
  let user := str user in
  data <- (if exists_ f then load f else Ok []) ;;
  let data := if negb (dict_mem user data)
              then dict_set user (VDict []) data else data in
  r <- getitem user data ;;
  old <- py_get r "subscriptions" (VList []) ;;
  joined <- py_add old [VStr plugin_name] ;;
  elems <- hashables joined ;;
  data <- setitem2 user "subscriptions"
            (VList (map VStr (list_set elems))) data ;;
  match name with
  | Some n => setitem2 user "name" (VStr n) data
  | None => Ok data
  end.

(** [unsubscribe] up to its last line. *)
Definition unsubscribe_data (user : Z) (plugin_name : string) (f : file)
  : result (dict value) :=
  let user := str user in
  data <- (if exists_ f then load f else Ok []) ;;
  let data := if negb (dict_mem user data)
              then dict_set user (VList []) data else data in
  r <- getitem user data ;;
  old <- py_get r "subscriptions" (VList []) ;;
  data <- (if contains plugin_name old then
             r <- getitem user data ;;
             t <- match r with VDict t => Ok t | _ => Raise TypeError end ;;
             cur <- getitem "subscriptions" t ;;
             l <- match cur with
                  | VList l => list_remove plugin_name l
                  | _ => Raise AttributeError
                  end ;;
             setitem2 user "subscriptions" (VList l) data
           else Ok data) ;;
  r <- getitem user data ;;
  left <- py_get r "subscriptions" (VList []) ;;
  Ok (if falsy left then dict_del user data else data).

Definition subscribe (write : writer)
    (list_set : list string -> list string)
    (user : Z) (plugin_name : string) (name : option string) (f : file)
  : result file :=
  data <- subscribe_data list_set user plugin_name name f ;;
  write data.

Definition unsubscribe (write : writer)
    (user : Z) (plugin_name : string) (f : file) : result file :=
  data <- unsubscribe_data user plugin_name f ;;
  write data.

(** The file is there and reading it raises. *)
Definition unparseable (f : file) : Prop := f = Unreadable \/ f = Corrupt.

(** The text written for [data] reads back as [data]. *)
Definition exact (write : writer) (data : dict value) : Prop :=
  write data = Ok (Doc data).

(** Nothing is written for [data], or a text that cannot be read back. *)
Definition lost (write : writer) (data : dict value) : Prop :=
  (exists e, write data = Raise e)
  \/ (exists f, write data = Ok f /\ unparseable f).

(** The text written for [data] reads back as [data] up to the display
    names: the same users in the same order, each record with the same
    fields, and every value but the one under ["name"] as it was. *)
Definition same_but_name (r r' : value) : Prop :=
  r = r'
  \/ exists t t', r = VDict t /\ r' = VDict t'
       /\ Forall2 (fun a b => fst a = fst b
                              /\ (snd a = snd b \/ fst a = "name")) t t'.

Definition names_altered (data data' : dict value) : Prop :=
  Forall2 (fun x y => fst x = fst y /\ same_but_name (snd x) (snd y))
    data data'.

Definition renamed (write : writer) (data : dict value) : Prop :=
  exists data', write data = Ok (Doc data') /\ names_altered data data'.

(** The document a call writes on [f], if it gets that far, reads back as
    written. *)
Definition written (write : writer)
    (call : file -> result (dict value)) (f : file) : Prop :=
  forall data, call f = Ok data -> exact write data.

(** The document a call writes on [f] reads back as written, or not at
    all. *)
Definition written_or_lost (write : writer)
    (call : file -> result (dict value)) (f : file) : Prop :=
  forall data, call f = Ok data -> exact write data \/ lost write data.

(** The document a call writes on [f] reads back as written, or the writer
    raises and nothing is written. *)
Definition written_or_refused (write : writer)
    (call : file -> result (dict value)) (f : file) : Prop :=
  forall data, call f = Ok data ->
               exact write data \/ exists e, write data = Raise e.

(** The document a call writes on [f] reads back as written up to the
    display names, or not at all. *)
Definition renamed_or_lost (write : writer)
    (call : file -> result (dict value)) (f : file) : Prop :=
  forall data, call f = Ok data -> renamed write data \/ lost write data.


(** The files reached from no file at all by calls each of whose writes
    reads back as written up to the display names, or not at all.  A
    write that reads back as a document with other subscription lists or
    other users is not covered. *)
Inductive reached (write : writer) : file -> Prop :=
| reached_init : reached write Missing
| reached_subscribe f list_set user plugin_name name :
    reached write f -> set_order list_set ->
    renamed_or_lost write (subscribe_data list_set user plugin_name name) f ->
    reached write (after (subscribe write list_set user plugin_name name) f)
| reached_unsubscribe f user plugin_name :
    reached write f ->
    renamed_or_lost write (unsubscribe_data user plugin_name) f ->
    reached write (after (unsubscribe write user plugin_name) f).

(** [callback], with the write step of the store operation it calls. *)
Definition callback (write : writer)
    (list_set : list string -> list string) (self : Bot)
    (chat : commands.Chat) (data : string) : M unit :=
  match split_on space data with
  | [action; plugin] =>
      if String.eqb action "subscribe" then
        _ <~ commands.update_store
               (subscribe write list_set (commands.id chat) plugin
                  (Some (commands.fmt (commands.first_name chat) ++ " "
                         ++ commands.fmt (commands.last_name chat))%string)) ;;
        _ <~ bot_send_message (updater_bot self) (commands.id chat)
               ("Successfully subscribed to "
                ++ commands.or_else
                     (commands.plugin_long_name_from_short_name self plugin)
                     "???")%string ;;
        logging_info ("Subscribe: " ++ commands.fmt (commands.first_name chat)
                      ++ " " ++ commands.fmt (commands.last_name chat) ++ " ("
                      ++ str (commands.id chat) ++ ") to " ++ plugin)%string
      else if String.eqb action "unsubscribe" then
        _ <~ commands.update_store
               (unsubscribe write (commands.id chat) plugin) ;;
        _ <~ bot_send_message (updater_bot self) (commands.id chat)
               ("Successfully unsubscribed from "
                ++ commands.or_else
                     (commands.plugin_long_name_from_short_name self plugin)
                     "???")%string ;;
        logging_info ("Unsubscribe: " ++ commands.fmt (commands.first_name chat)
                      ++ " " ++ commands.fmt (commands.last_name chat) ++ " ("
                      ++ str (commands.id chat) ++ ") from " ++ plugin)%string
      else ret tt
  | _ => raise ValueError
  end.

End store.

(** A writer that leaves a file no read can parse whenever some display
    name has a backslash in it, and writes every other document as it
    is. *)
Definition no_backslash (s : string) : bool := free_of (ascii_of_nat 92) s.

Definition name_ok (r : value) : bool :=
  match r with
  | VDict t =>
      match dict_get "name" t with
      | Some (VStr s) => no_backslash s
      | _ => true
      end
  | _ => true
  end.

Definition lossy : store.writer :=
  fun data =>
    if forallb (fun entry => name_ok (snd entry)) data
    then Ok (Doc data) else Ok Corrupt.

(** The error [datetime.time] raises for a plugin's time it refuses. *)
Definition time_error (p : plugin) : exn :=
  if c_int (plugin_hour p) && c_int (plugin_minute p)
  then ValueError else OverflowError.

(** A store that holds user 7, written by [subscribe(7, "kjilat", "Bo")]. *)
Definition bo_store : file :=
  Doc [("7", VDict [("subscriptions", VList [VStr "kjilat"]);
                    ("name", VStr "Bo")])].

(** A plugin whose hour does not fit a C [int]. *)
Definition far_plugin : plugin :=
  {| HOUR := Some 2147483648; MINUTE := Some 0; NAME := None;
     run := Some (fun _ _ _ => ret tt) |}.

(** * Properties *)

Example scenario_1 :
  subscribe nodup_str 42 "panda" (Some "Ann") Missing
  = Ok (Doc [("42", VDict [("subscriptions", VList [VStr "panda"]);
                           ("name", VStr "Ann")])]).
Proof. reflexivity. Qed.

Example scenario_unsub_unknown :
  unsubscribe 42 "panda" Missing = Raise AttributeError.
Proof. reflexivity. Qed.

Example int_examples :
  int_of_str "42" = Ok 42 /\ int_of_str " -0_7 " = Ok (-7)
  /\ int_of_str "+5" = Ok 5 /\ int_of_str "4__2" = Raise ValueError
  /\ int_of_str EmptyString = Raise ValueError /\ int_of_str "-" = Raise ValueError
  /\ str (-120) = "-120" /\ str 0 = "0".
Proof. repeat split; reflexivity. Qed.

(** ** Dictionaries *)

Section DictFacts.
Context {A : Type}.
Implicit Types (d : dict A) (k : string) (v : A).

Lemma dict_get_set_eq k v d : dict_get k (dict_set k v d) = Some v.
Proof.
  induction d as [|[k' v'] d IH]; simpl.
  - now rewrite String.eqb_refl.
  - destruct (String.eqb k' k) eqn:E; simpl.
    + now rewrite String.eqb_refl.
    + now rewrite E.
Qed.

Lemma dict_get_set_neq k k' v d :
  k' <> k -> dict_get k' (dict_set k v d) = dict_get k' d.
Proof.
  intros Hne. induction d as [|[k0 v0] d IH]; simpl.
  - apply String.eqb_neq in Hne. rewrite String.eqb_sym in Hne.
    now rewrite Hne.
  - destruct (String.eqb k0 k) eqn:E; simpl.
    + apply String.eqb_eq in E. subst k0.
      assert (H : String.eqb k k' = false)
        by (apply String.eqb_neq; congruence).
      now rewrite H.
    + now rewrite IH.
Qed.

Lemma dict_get_del_eq k d : dict_get k (dict_del k d) = None.
Proof.
  induction d as [|[k' v'] d IH]; simpl; auto.
  destruct (String.eqb k' k) eqn:E; simpl; auto.
  now rewrite E.
Qed.

Lemma dict_get_del_neq k k' d :
  k' <> k -> dict_get k' (dict_del k d) = dict_get k' d.
Proof.
  intros Hne. induction d as [|[k0 v0] d IH]; simpl; auto.
  destruct (String.eqb k0 k) eqn:E; simpl.
  - apply String.eqb_eq in E. subst k0.
    assert (H : String.eqb k k' = false)
      by (apply String.eqb_neq; congruence).
    now rewrite H.
  - now rewrite IH.
Qed.

Lemma dict_get_In k v d : dict_get k d = Some v -> In (k, v) d.
Proof.
  induction d as [|[k' v'] d IH]; simpl; [discriminate|].
  destruct (String.eqb k' k) eqn:E.
  - apply String.eqb_eq in E. intros [= ->]. left. now subst.
  - auto.
Qed.

Lemma dict_get_None k d : dict_get k d = None <-> ~ In k (keys d).
Proof.
  induction d as [|[k' v'] d IH]; simpl.
  - tauto.
  - destruct (String.eqb k' k) eqn:E.
    + apply String.eqb_eq in E. split; [discriminate | tauto].
    + apply String.eqb_neq in E. rewrite IH. tauto.
Qed.

Lemma In_dict_get k v d : NoDup (keys d) -> In (k, v) d -> dict_get k d = Some v.
Proof.
  induction d as [|[k' v'] d IH]; simpl; [tauto|].
  intros Hnd [H|H].
  - injection H as -> ->. now rewrite String.eqb_refl.
  - inversion Hnd as [|? ? Hnotin Hnd']; subst.
    destruct (String.eqb k' k) eqn:E; auto.
    apply String.eqb_eq in E. subst k'.
    exfalso. apply Hnotin. unfold keys. now apply (in_map fst _ (k, v)).
Qed.

(** Assigning to a key that is present keeps the keys and their order. *)
Lemma keys_set_present k v d :
  dict_mem k d = true -> keys (dict_set k v d) = keys d.
Proof.
  unfold dict_mem. induction d as [|[k' v'] d IH]; simpl; [discriminate|].
  destruct (String.eqb k' k) eqn:E; simpl.
  - apply String.eqb_eq in E. now subst.
  - intros H. now rewrite IH.
Qed.

Lemma keys_set_absent k v d :
  dict_mem k d = false -> keys (dict_set k v d) = keys d ++ [k].
Proof.
  unfold dict_mem. induction d as [|[k' v'] d IH]; simpl; auto.
  destruct (String.eqb k' k) eqn:E; simpl; [discriminate|].
  intros H. now rewrite IH.
Qed.

Lemma keys_del k d : keys (dict_del k d) = filter (fun k' => negb (String.eqb k' k)) (keys d).
Proof.
  induction d as [|[k' v'] d IH]; simpl; auto.
  destruct (String.eqb k' k); simpl; now rewrite IH.
Qed.

Lemma dict_mem_true k d : dict_mem k d = true <-> In k (keys d).
Proof.
  unfold dict_mem. destruct (dict_get k d) eqn:E.
  - split; auto. intros _.
    apply dict_get_In in E. now apply (in_map fst _ (k, a)).
  - apply dict_get_None in E. split; [discriminate | tauto].
Qed.

Lemma NoDup_keys_set k v d : NoDup (keys d) -> NoDup (keys (dict_set k v d)).
Proof.
  intros Hnd. destruct (dict_mem k d) eqn:E.
  - now rewrite keys_set_present.
  - rewrite keys_set_absent by assumption.
    apply NoDup_app; auto.
    + constructor; [simpl; tauto | constructor].
    + intros x Hx [<-|[]]. apply dict_mem_true in Hx. congruence.
Qed.

Lemma NoDup_keys_del k d : NoDup (keys d) -> NoDup (keys (dict_del k d)).
Proof. rewrite keys_del. apply NoDup_filter. Qed.

End DictFacts.

(** ** [int(str(z)) == z] *)

Lemma is_digit_facts a :
  is_digit a = true ->
  is_space a = false /\ Ascii.eqb a "_" = false
  /\ Ascii.eqb a "-" = false /\ Ascii.eqb a "+" = false.
Proof.
  destruct a as [[|] [|] [|] [|] [|] [|] [|] [|]]; vm_compute;
    intros H; try discriminate H; repeat split.
Qed.

Lemma all_digits_uint d : all_digits (NilEmpty.string_of_uint d) = true.
Proof. induction d; simpl; auto. Qed.

Lemma lstrip_digits s : all_digits s = true -> lstrip s = s.
Proof.
  destruct s as [|a s]; simpl; auto.
  intros H. apply andb_true_iff in H as [Ha _].
  apply is_digit_facts in Ha as [-> _]. reflexivity.
Qed.

Lemma rstrip_digits s : all_digits s = true -> rstrip s = s.
Proof.
  induction s as [|a s IH]; simpl; auto.
  intros H. apply andb_true_iff in H as [Ha Hs].
  rewrite (IH Hs). apply is_digit_facts in Ha as [-> _].
  now destruct s.
Qed.

Lemma digit_groups_digits s :
  all_digits s = true -> s <> EmptyString ->
  forall b, digit_groups s b = Some s.
Proof.
  induction s as [|a s IH]; simpl; [congruence|].
  intros H _ b. apply andb_true_iff in H as [Ha Hs].
  rewrite Ha. apply is_digit_facts in Ha as (_ & -> & _).
  destruct s as [|a' s']; [reflexivity|].
  now rewrite IH.
Qed.

Lemma string_of_uint_nonempty d :
  d <> Decimal.Nil -> NilEmpty.string_of_uint d <> EmptyString.
Proof. destruct d; simpl; congruence. Qed.

Lemma unsigned_of_str_uint d :
  d <> Decimal.Nil ->
  unsigned_of_str (NilEmpty.string_of_uint d) = Some (Z.of_uint d).
Proof.
  intros Hd. unfold unsigned_of_str.
  rewrite digit_groups_digits
    by auto using all_digits_uint, string_of_uint_nonempty.
  now rewrite NilEmpty.usu.
Qed.

Lemma NilZero_string_of_uint_nonnil d :
  d <> Decimal.Nil -> NilZero.string_of_uint d = NilEmpty.string_of_uint d.
Proof. destruct d; simpl; congruence. Qed.

Lemma Z_of_uint_to_uint p : Z.of_uint (Pos.to_uint p) = Z.pos p.
Proof. unfold Z.of_uint. now rewrite DecimalPos.Unsigned.of_to. Qed.

Lemma int_of_str_str z : int_of_str (str z) = Ok z.
Proof.
  destruct z as [|p|p]; [reflexivity| |].
  - unfold str, int_of_str, strip. simpl Z.to_int.
    simpl NilZero.string_of_int.
    pose proof (DecimalPos.Unsigned.to_uint_nonnil p) as Hn.
    rewrite NilZero_string_of_uint_nonnil by assumption.
    pose proof (all_digits_uint (Pos.to_uint p)) as Hd.
    rewrite lstrip_digits, rstrip_digits by assumption.
    pose proof (string_of_uint_nonempty _ Hn) as Hne.
    destruct (NilEmpty.string_of_uint (Pos.to_uint p)) as [|a s] eqn:E;
      [congruence|].
    pose proof Hd as Hd'. simpl in Hd'.
    apply andb_true_iff in Hd' as [Ha _].
    apply is_digit_facts in Ha as (_ & _ & -> & ->).
    rewrite <- E, unsigned_of_str_uint by assumption.
    now rewrite Z_of_uint_to_uint.
  - unfold str, int_of_str, strip. simpl Z.to_int.
    simpl NilZero.string_of_int.
    pose proof (DecimalPos.Unsigned.to_uint_nonnil p) as Hn.
    rewrite NilZero_string_of_uint_nonnil by assumption.
    pose proof (all_digits_uint (Pos.to_uint p)) as Hd.
    change (lstrip (String "-" (NilEmpty.string_of_uint (Pos.to_uint p))))
      with (String "-" (NilEmpty.string_of_uint (Pos.to_uint p))).
    pose proof (string_of_uint_nonempty _ Hn) as Hne.
    simpl rstrip. rewrite rstrip_digits by assumption.
    destruct (NilEmpty.string_of_uint (Pos.to_uint p)) as [|a s] eqn:E;
      [congruence|].
    rewrite Ascii.eqb_refl.
    rewrite <- E, unsigned_of_str_uint by assumption.
    now rewrite Z_of_uint_to_uint.
Qed.

Lemma str_inj u v : str u = str v -> u = v.
Proof.
  intros H. pose proof (int_of_str_str u) as Hu.
  rewrite H, int_of_str_str in Hu. congruence.
Qed.

(** ** The store operations in closed form *)

Lemma dict_set_set {A : Type} (k : string) (v1 v2 : A) (d : dict A) :
  dict_set k v2 (dict_set k v1 d) = dict_set k v2 d.
Proof.
  induction d as [|[k' v'] d IH]; simpl.
  - now rewrite String.eqb_refl.
  - destruct (String.eqb k' k) eqn:E; simpl.
    + now rewrite String.eqb_refl.
    + now rewrite E, IH.
Qed.

Lemma dict_del_set {A : Type} (k : string) (v : A) (d : dict A) :
  dict_del k (dict_set k v d) = dict_del k d.
Proof.
  induction d as [|[k' v'] d IH]; simpl.
  - now rewrite String.eqb_refl.
  - destruct (String.eqb k' k) eqn:E; simpl.
    + now rewrite String.eqb_refl.
    + now rewrite E, IH.
Qed.

Lemma subscribe_eq list_set u p n f :
  subscribe list_set u p n f =
  (d <- load_or_empty f ;;
   t <- table_of (dict_get (str u) d) ;;
   joined <- py_add (old_subs t) [VStr p] ;;
   elems <- hashables joined ;;
   Ok (Doc (dict_set (str u)
              (VDict (with_name n
                 (dict_set "subscriptions" (VList (map VStr (list_set elems))) t)))
              d))).
Proof.
  unfold subscribe, load_or_empty.
  destruct (if exists_ f then load f else Ok []) as [d|e]; simpl; auto.
  unfold dict_mem. destruct (dict_get (str u) d) as [r|] eqn:Hr; simpl.
  - unfold getitem at 1. rewrite Hr. simpl.
    destruct r as [s|l|t]; simpl; auto.
    unfold old_subs.
    destruct (dict_get "subscriptions" t) as [[s|l0|t0]|]; simpl; auto;
      try match goal with
          | |- context [hashables ?l] =>
              destruct (hashables l) as [elems|e]; simpl; auto
          end;
      unfold setitem2, getitem; rewrite Hr; simpl;
      destruct n as [n|]; simpl; auto;
      rewrite dict_get_set_eq; simpl; now rewrite dict_set_set.
  - unfold getitem at 1. rewrite dict_get_set_eq. simpl.
    unfold setitem2, getitem. rewrite dict_get_set_eq. simpl.
    destruct n as [n|]; simpl.
    + rewrite dict_get_set_eq. simpl. now rewrite !dict_set_set.
    + now rewrite dict_set_set.
Qed.

Lemma unsubscribe_eq u p f :
  unsubscribe u p f =
  (d <- load_or_empty f ;;
   match dict_get (str u) d with
   | Some (VDict t) =>
       if contains p (old_subs t) then
         match old_subs t with
         | VList l =>
             l' <- list_remove p l ;;
             Ok (Doc (if falsy (VList l') then dict_del (str u) d
                      else dict_set (str u)
                             (VDict (dict_set "subscriptions" (VList l') t)) d))
         | _ => Raise AttributeError
         end
       else Ok (Doc (if falsy (old_subs t) then dict_del (str u) d else d))
   | _ => Raise AttributeError
   end).
Proof.
  unfold unsubscribe, load_or_empty.
  destruct (if exists_ f then load f else Ok []) as [d|e]; simpl; auto.
  unfold dict_mem. destruct (dict_get (str u) d) as [r|] eqn:Hr; simpl.
  - unfold getitem at 1. rewrite Hr. simpl.
    destruct r as [s|l|t]; simpl; auto.
    unfold old_subs.
    destruct (dict_get "subscriptions" t) as [x|] eqn:Hx; simpl.
    + destruct (contains p x) eqn:Hc; simpl.
      * unfold getitem at 1. rewrite Hr. simpl.
        unfold getitem at 1. rewrite Hx. simpl.
        destruct x as [s|l|t0]; simpl; auto.
        destruct (list_remove p l) as [l'|e]; simpl; auto.
        unfold setitem2, getitem. rewrite Hr. simpl.
        rewrite dict_get_set_eq. simpl. rewrite dict_get_set_eq.
        destruct l'; simpl; auto. now rewrite dict_del_set.
      * unfold getitem. rewrite Hr. simpl. now rewrite Hx.
    + unfold getitem. rewrite Hr. simpl. now rewrite Hx.
  - unfold getitem at 1. now rewrite dict_get_set_eq.
Qed.

Lemma hashables_map l : hashables (map VStr l) = Ok l.
Proof. induction l as [|s l IH]; simpl; auto. now rewrite IH. Qed.


Lemma existsb_is_str p l : existsb (is_str p) (map VStr l) = true <-> In p l.
Proof.
  induction l as [|s l IH]; simpl; [split; [discriminate | tauto]|].
  rewrite orb_true_iff, IH, String.eqb_eq. tauto.
Qed.

Lemma In_VStr_map p l : In (VStr p) (map VStr l) <-> In p l.
Proof.
  rewrite in_map_iff. split.
  - intros (x & [= ->] & H). exact H.
  - intros H. now exists p.
Qed.

Lemma without_In p l x : In x (without p l) <-> In x l /\ x <> p.
Proof.
  unfold without. rewrite filter_In, negb_true_iff, String.eqb_neq. tauto.
Qed.

Lemma without_notin p l : ~ In p l -> without p l = l.
Proof.
  induction l as [|s l IH]; simpl; auto.
  intros H. destruct (String.eqb_spec s p) as [->|Hne]; simpl.
  - tauto.
  - f_equal. apply IH. tauto.
Qed.

(** On a list of distinct strings, [remove] takes out the only occurrence. *)
Lemma list_remove_NoDup p l :
  NoDup l -> In p l ->
  list_remove p (map VStr l) = Ok (map VStr (without p l)).
Proof.
  induction l as [|s l IH]; simpl; [tauto|].
  intros Hnd Hin. inversion Hnd as [|? ? Hnotin Hnd']; subst.
  destruct (String.eqb_spec s p) as [->|Hne]; simpl.
  - now rewrite without_notin.
  - destruct Hin as [->|Hin]; [congruence|].
    fold (without p l). now rewrite IH.
Qed.

(** ** The invariant of the reachable files *)

Lemma Forall_dict_set {A : Type} (P : string * A -> Prop) k v (d : dict A) :
  Forall P d -> P (k, v) -> Forall P (dict_set k v d).
Proof.
  intros Hd Hkv. induction Hd as [|[k' v'] d Hx Hd IH]; simpl.
  - auto.
  - destruct (String.eqb k' k); auto.
Qed.

Lemma Forall_dict_del {A : Type} (P : string * A -> Prop) k (d : dict A) :
  Forall P d -> Forall P (dict_del k d).
Proof.
  intros Hd. apply Forall_forall. intros x Hx.
  apply filter_In in Hx as [Hx _].
  revert x Hx. now apply Forall_forall.
Qed.

Lemma wf_doc_get d k r :
  wf_doc d -> dict_get k d = Some r -> (exists z, k = str z) /\ wf_record r.
Proof.
  intros [_ Hall] Hget. apply dict_get_In in Hget.
  rewrite Forall_forall in Hall. exact (Hall _ Hget).
Qed.

Lemma wf_doc_set d u r : wf_doc d -> wf_record r -> wf_doc (dict_set (str u) r d).
Proof.
  intros [Hnd Hall] Hr. split.
  - now apply NoDup_keys_set.
  - apply Forall_dict_set; auto. simpl. split; eauto.
Qed.

Lemma wf_doc_del d k : wf_doc d -> wf_doc (dict_del k d).
Proof.
  intros [Hnd Hall]. split.
  - now apply NoDup_keys_del.
  - now apply Forall_dict_del.
Qed.

Lemma wf_doc_nil : wf_doc [].
Proof. split; constructor. Qed.

Lemma wf_record_new list_set n t l :
  set_order list_set -> l <> [] ->
  wf_record
    (VDict (with_name n
       (dict_set "subscriptions" (VList (map VStr (list_set l))) t))).
Proof.
  intros Hord Hl. eexists _, (list_set l). split; [reflexivity|].
  destruct (Hord l) as [Hnd Hin]. repeat split; auto.
  - destruct n as [n|]; simpl.
    + rewrite dict_get_set_neq by discriminate. apply dict_get_set_eq.
    + apply dict_get_set_eq.
  - destruct l as [|x l]; [congruence|].
    intros E. specialize (Hin x). rewrite E in Hin. simpl in Hin. tauto.
Qed.

(** On a well-formed file [subscribe] always succeeds, and keeps the file
    well-formed. *)
Lemma subscribe_wf list_set u p n f :
  set_order list_set -> wf_file f ->
  exists d', subscribe list_set u p n f = Ok (Doc d') /\ wf_doc d'.
Proof.
  intros Hord Hwf. rewrite subscribe_eq.
  assert (Hd : exists d, load_or_empty f = Ok d /\ wf_doc d).
  { destruct f; simpl in Hwf; try tauto; eexists; split;
      try reflexivity; auto using wf_doc_nil. }
  destruct Hd as (d & -> & Hd). simpl.
  destruct (dict_get (str u) d) as [r|] eqn:Hr; simpl.
  - destruct (wf_doc_get _ _ _ Hd Hr) as (_ & t & l & -> & Hs & _ & _).
    simpl. unfold old_subs. rewrite Hs. simpl.
    change [VStr p] with (map VStr [p]).
    rewrite <- map_app, hashables_map. simpl.
    eexists. split; [reflexivity|].
    apply wf_doc_set; auto. apply wf_record_new; auto.
    now destruct l.
  - eexists. split; [reflexivity|].
    apply wf_doc_set; auto.
    apply (wf_record_new list_set n [] [p]); auto. discriminate.
Qed.

Lemma falsy_strings l : falsy (VList (map VStr l)) = true <-> l = [].
Proof. destruct l; simpl; split; congruence. Qed.

Lemma unsubscribe_wf u p f : wf_file f -> wf_file (after (unsubscribe u p) f).
Proof.
  intros Hwf. unfold after. rewrite unsubscribe_eq.
  destruct f as [| | |d]; simpl in *; try tauto.
  destruct (dict_get (str u) d) as [r|] eqn:Hr; simpl; auto.
  destruct (wf_doc_get _ _ _ Hwf Hr) as (_ & t & l & -> & Hs & Hnd & Hne).
  unfold old_subs. rewrite Hs. cbn [contains].
  destruct (existsb (is_str p) (map VStr l)) eqn:Hc.
  - apply existsb_is_str in Hc.
    rewrite list_remove_NoDup by assumption. cbn [bind].
    destruct (without p l) as [|s l'] eqn:Hw; cbn [map].
    + now apply wf_doc_del.
    + apply wf_doc_set; auto.
      exists (dict_set "subscriptions" (VList (map VStr (s :: l'))) t),
             (s :: l').
      repeat split.
      * apply dict_get_set_eq.
      * rewrite <- Hw. now apply NoDup_filter.
      * discriminate.
  - destruct l; [congruence | assumption].
Qed.


(** ** The read operations *)

Lemma subscriptions_eq u f :
  subscriptions u f =
  match f with
  | Missing => Ok (VList [])
  | Unreadable => Raise OSError
  | Corrupt => Raise TomlDecodeError
  | Doc d =>
      match dict_get (str u) d with
      | None => Ok (VList [])
      | Some r => py_get r "subscriptions" (VList [])
      end
  end.
Proof.
  unfold subscriptions. destruct f as [| | |d]; simpl; auto.
  unfold dict_mem, getitem. now destruct (dict_get (str u) d).
Qed.

Lemma py_get_old_subs t : py_get (VDict t) "subscriptions" (VList []) = Ok (old_subs t).
Proof. unfold old_subs. simpl. now destruct (dict_get "subscriptions" t). Qed.

Lemma subscriber_loop_wf q d :
  Forall (fun kr => (exists z, fst kr = str z) /\ wf_record (snd kr)) d ->
  exists us, subscriber_loop q d = Ok us
    /\ forall u, In u us <-> exists r, In (str u, r) d /\ selected q r.
Proof.
  induction 1 as [|[k r] d [[z Hk] Hr] Hd IH]; simpl in *.
  - exists []. split; auto. intros u. simpl.
    split; [intros [] | intros (r & [] & _)].
  - subst k. destruct IH as (us & IHeq & IHin).
    destruct Hr as (t & l & -> & Hs & _ & _).
    assert (Hkeep : exists b,
      match q with
      | Some p => s <- py_get (VDict t) "subscriptions" (VList []) ;;
                  Ok (contains p s)
      | None => Ok true
      end = Ok b /\ (b = true <-> selected q (VDict t))).
    { destruct q as [p|].
      - rewrite py_get_old_subs. simpl. eexists. split; [reflexivity|].
        split.
        + intros Hb. now exists t.
        + intros (t' & [= <-] & Hb). exact Hb.
      - exists true. simpl. tauto. }
    destruct Hkeep as (b & -> & Hb). simpl.
    destruct b.
    + rewrite int_of_str_str, IHeq. simpl.
      eexists. split; [reflexivity|]. intros u. simpl. rewrite IHin.
      split.
      * intros [<-|(r & Hin & Hsel)].
        -- exists (VDict t). split; auto. now apply Hb.
        -- exists r. auto.
      * intros (r & [Heq|Hin] & Hsel).
        -- left. injection Heq as Heq _. now apply str_inj.
        -- right. eauto.
    + exists us. split; auto. intros u. rewrite IHin.
      split.
      * intros (r & Hin & Hsel). eauto.
      * intros (r & [Heq|Hin] & Hsel); [|eauto].
        injection Heq as _ <-. apply Hb in Hsel. discriminate.
Qed.


Lemma nodup_str_order : set_order nodup_str.
Proof.
  intros xs. split.
  - apply NoDup_nodup.
  - intros x. apply nodup_In.
Qed.

Lemma subscriber_wf q d :
  wf_doc d ->
  exists us, subscriber q (Doc d) = Ok us
    /\ forall u, In u us <-> exists r, dict_get (str u) d = Some r /\ selected q r.
Proof.
  intros [Hnd Hall].
  destruct (subscriber_loop_wf q d Hall) as (us & Heq & Hin).
  exists us. split; [exact Heq|]. intros u. rewrite Hin.
  split; intros (r & Hr & Hsel); exists r; split; auto.
  - now apply In_dict_get.
  - now apply dict_get_In.
Qed.

(** ** Cleanup on the last unsubscribe *)

(** In any file at all, taking away the one provider of a one-element
    list deletes the record. *)
Lemma unsubscribe_last_any_file u p f :
  subscriptions u f = Ok (VList [VStr p]) ->
  exists d, f = Doc d
    /\ unsubscribe u p f = Ok (Doc (dict_del (str u) d))
    /\ subscriptions u (Doc (dict_del (str u) d)) = Ok (VList []).
Proof.
  rewrite subscriptions_eq. destruct f as [| | |d]; try discriminate.
  exists d. split; auto.
  destruct (dict_get (str u) d) as [[s|l|t]|] eqn:Hu; try discriminate.
  rewrite py_get_old_subs in H. injection H as Ho.
  split.
  - rewrite unsubscribe_eq. simpl. rewrite Hu, Ho. simpl.
    now rewrite String.eqb_refl.
  - rewrite subscriptions_eq. now rewrite dict_get_del_eq.
Qed.



(** ** Unsubscribing a provider the user does not have *)

Lemma unsubscribe_unknown_user u p f d :
  load_or_empty f = Ok d -> dict_get (str u) d = None ->
  unsubscribe u p f = Raise AttributeError.
Proof. intros Hd Hu. rewrite unsubscribe_eq, Hd. simpl. now rewrite Hu. Qed.

(** For a user the file knows, taking away a provider that is not in a
    non-empty list rewrites the file as it was. *)
Lemma unsubscribe_nonmember_known_user u p d t l :
  dict_get (str u) d = Some (VDict t) ->
  old_subs t = VList l -> l <> [] -> existsb (is_str p) l = false ->
  unsubscribe u p (Doc d) = Ok (Doc d).
Proof.
  intros Hu Ht Hl Hp. rewrite unsubscribe_eq. simpl.
  rewrite Hu, Ht. simpl. rewrite Hp. now destruct l.
Qed.

(** C1. For a user the store does not know, [unsubscribe(u, p)] is not a
    silent no-op: whether the file is missing or holds no record at all,
    the call raises [AttributeError], because [data[user]] is set to a list
    and a list has no [get]. *)
Theorem unsubscribe_unknown_user_raises u p :
  unsubscribe u p Missing = Raise AttributeError
  /\ unsubscribe u p (Doc []) = Raise AttributeError.
Proof. split; now apply (unsubscribe_unknown_user u p _ []). Qed.

(** ** Reading a file that is missing, unreadable or not TOML *)

(** C3, as stated, fails: a file whose text is not TOML, and a file whose
    entry for the user is not a table (the line [42 = "x"]), make the reads
    raise. *)
Lemma corrupt_store_read_raises :
  subscriptions 42 Corrupt = Raise TomlDecodeError
  /\ subscriber (Some "panda") Corrupt = Raise TomlDecodeError
  /\ subscriptions 42 (Doc [("42", VStr "x")]) = Raise AttributeError
  /\ subscriptions 42 Corrupt <> Ok (VList []).
Proof. repeat split; try reflexivity. discriminate. Qed.

(** C3, amended. Only a missing file is read as an empty store: both reads
    then return the empty list.  When the file exists and cannot be read,
    or its text is not TOML, the error of [read_text] or [toml.loads]
    reaches the caller. *)
Theorem reads_soft_only_on_missing_file u q :
  subscriptions u Missing = Ok (VList [])
  /\ subscriber q Missing = Ok []
  /\ subscriptions u Corrupt = Raise TomlDecodeError
  /\ subscriber q Corrupt = Raise TomlDecodeError
  /\ subscriptions u Unreadable = Raise OSError
  /\ subscriber q Unreadable = Raise OSError.
Proof. repeat split; reflexivity. Qed.

(** ** Keys and records *)

Lemma str_neq u v : v <> u -> str v <> str u.
Proof. intros H E. apply H. now apply str_inj. Qed.

Lemma record_of_load f d v :
  load_or_empty f = Ok d -> record_of v f = dict_get (str v) d.
Proof.
  destruct f; simpl; intros [= <-]; reflexivity.
Qed.

(** ** Lists of strings *)


Lemma subscriptions_strings u f l0 :
  subscriptions u f = Ok (VList (map VStr l0)) ->
  exists d t, load_or_empty f = Ok d
    /\ table_of (dict_get (str u) d) = Ok t
    /\ old_subs t = VList (map VStr l0).
Proof.
  rewrite subscriptions_eq. destruct f as [| | |d]; try discriminate.
  - intros [= H]. exists [], []. repeat split; auto.
    now rewrite <- H.
  - destruct (dict_get (str u) d) as [[s|l|t]|] eqn:Hu; try discriminate.
    + rewrite py_get_old_subs. intros [= H]. exists d, t.
      rewrite Hu. now repeat split.
    + intros [= H]. exists d, []. rewrite Hu. repeat split; auto.
      now rewrite <- H.
Qed.

(** ** Subscribing twice *)







Lemma get_subs_with_name n x t :
  dict_get "subscriptions" (with_name n (dict_set "subscriptions" x t)) = Some x.
Proof.
  destruct n as [n|]; simpl.
  - rewrite dict_get_set_neq by discriminate. apply dict_get_set_eq.
  - apply dict_get_set_eq.
Qed.




(** Files that are alike answer the reads alike. *)








Lemma rev_nodup_str_order : set_order rev_nodup_str.
Proof.
  intros xs. unfold rev_nodup_str. split.
  - apply NoDup_rev, NoDup_nodup.
  - intros x. rewrite <- in_rev. apply nodup_In.
Qed.

(** The second call does reorder the stored list when the two [set] orders
    differ. *)
Example subscribe_twice_reorders :
  subscriptions 42
    (after (subscribe nodup_str 42 "late" None) example_store)
  = Ok (VList [VStr "kjilat"; VStr "panda"; VStr "late"])
  /\ subscriptions 42
       (after (subscribe rev_nodup_str 42 "late" None)
          (after (subscribe nodup_str 42 "late" None) example_store))
     = Ok (VList [VStr "late"; VStr "panda"; VStr "kjilat"]).
Proof. split; reflexivity. Qed.

(** ** Plugin registry and schedule *)

Lemma load_plugins_loop_registered load_plugin names acc registered :
  load_plugins_loop load_plugin names acc = Ok registered ->
  forall k p,
    dict_get k registered = Some p ->
    dict_get k acc = Some p
    \/ (load_plugin k = Ok p
        /\ hasattr (HOUR p) && hasattr (MINUTE p) && hasattr (run p) = true).
Proof.
  revert acc. induction names as [|name names IH]; simpl; intros acc H k p Hk.
  - injection H as <-. auto.
  - destruct (load_plugin name) as [q|e] eqn:Hq; simpl in H; [|discriminate].
    destruct (hasattr (HOUR q) && hasattr (MINUTE q) && hasattr (run q))
      eqn:Hattr.
    + destruct (IH _ H k p Hk) as [Hacc|Hnew]; auto.
      destruct (string_dec k name) as [->|Hne].
      * rewrite dict_get_set_eq in Hacc. injection Hacc as <-. auto.
      * rewrite dict_get_set_neq in Hacc by assumption. auto.
    + eauto.
Qed.

Lemma load_plugins_registered plugin_source registered k p :
  load_plugins plugin_source = Ok registered ->
  dict_get k registered = Some p ->
  load_plugin plugin_source k = Ok p
  /\ exists h m f, HOUR p = Some h /\ MINUTE p = Some m /\ run p = Some f.
Proof.
  intros H Hk.
  destruct (load_plugins_loop_registered _ _ _ _ H k p Hk) as [Habs|[Hl Ha]].
  - discriminate.
  - split; auto.
    destruct (HOUR p), (MINUTE p), (run p); try discriminate. eauto 7.
Qed.

Lemma schedule_job_names registered job_queue jobs :
  schedule_plugin_messages registered job_queue = Ok jobs ->
  map job_name jobs = map job_name job_queue ++ keys registered.
Proof.
  revert job_queue. induction registered as [|[name p] rest IH]; simpl;
    intros job_queue H.
  - injection H as <-. now rewrite app_nil_r.
  - destruct (datetime_time (plugin_hour p) (plugin_minute p) 0)
      as [[[h m] s]|e]; simpl in H; [|discriminate].
    rewrite (IH _ H), map_app, <- app_assoc. reflexivity.
Qed.

(** C2, as stated, fails: a candidate with [run] and [MINUTE] but without
    [HOUR] is left out of the registry, and no job is made for it. *)
Lemma plugin_without_hour_not_registered :
  load_plugins late_source = Ok []
  /\ hasattr (run late_plugin) = true
  /\ ~ (exists registered p,
          load_plugins late_source = Ok registered
          /\ dict_get "late" registered = Some p).
Proof.
  repeat split. intros (registered & p & H & Hp).
  injection H as <-. discriminate.
Qed.

(** C2, amended. A candidate that has the delivery operation but lacks the
    firing hour or the firing minute is not registered and gets no job.
    [plugin_hour] and [plugin_minute] do give 0 for a missing field, but
    every registered plugin declares both fields, so each job carries the
    declared hour and minute and the default never decides a schedule. *)
Theorem plugin_without_time_is_excluded plugin_source name p registered :
  load_plugins plugin_source = Ok registered ->
  load_plugin plugin_source name = Ok p ->
  HOUR p = None \/ MINUTE p = None ->
  dict_get name registered = None
  /\ (forall jobs, schedule_plugin_messages registered [] = Ok jobs ->
        ~ In name (map job_name jobs))
  /\ (HOUR p = None -> plugin_hour p = 0)
  /\ (MINUTE p = None -> plugin_minute p = 0)
  /\ (forall k q, dict_get k registered = Some q ->
        HOUR q = Some (plugin_hour q) /\ MINUTE q = Some (plugin_minute q)).
Proof.
  intros Hreg Hload Hmiss.
  assert (Hnone : dict_get name registered = None).
  { destruct (dict_get name registered) as [q|] eqn:Hq; auto.
    destruct (load_plugins_registered _ _ _ _ Hreg Hq)
      as (Hl & h & m & f & Hh & Hm & _).
    rewrite Hload in Hl. injection Hl as <-.
    destruct Hmiss; congruence. }
  split; [exact Hnone|]. split; [|split; [|split]].
  - intros jobs Hjobs. rewrite (schedule_job_names _ _ _ Hjobs). simpl.
    now apply dict_get_None.
  - unfold plugin_hour. now intros ->.
  - unfold plugin_minute. now intros ->.
  - intros k q Hq.
    destruct (load_plugins_registered _ _ _ _ Hreg Hq)
      as (_ & h & m & f & Hh & Hm & _).
    unfold plugin_hour, plugin_minute. now rewrite Hh, Hm.
Qed.

Lemma plugin_without_time_is_excluded_witness :
  dict_get "late" (@nil (string * plugin)) = None
  /\ (forall jobs, schedule_plugin_messages [] [] = Ok jobs ->
        ~ In "late" (map job_name jobs))
  /\ (HOUR late_plugin = None -> plugin_hour late_plugin = 0)
  /\ (MINUTE late_plugin = None -> plugin_minute late_plugin = 0)
  /\ (forall k q, dict_get k (@nil (string * plugin)) = Some q ->
        HOUR q = Some (plugin_hour q) /\ MINUTE q = Some (plugin_minute q)).
Proof.
  apply (plugin_without_time_is_excluded late_source "late" late_plugin []).
  - reflexivity.
  - reflexivity.
  - left. reflexivity.
Defined.

(** ** Dispatch *)

Lemma add_trace_app w a b : add_trace (add_trace w a) b = add_trace w (a ++ b).
Proof. unfold add_trace. simpl. now rewrite app_assoc. Qed.

Lemma add_trace_nil w : add_trace w [] = w.
Proof. destruct w. unfold add_trace. simpl. now rewrite app_nil_r. Qed.

(** A guarded send never raises: it leaves the attempt in the trace, and
    the error line when the transport raised. *)
Lemma guarded_attempt_turn send outcome chat_id w :
  try_except
    (attempt (send chat_id) (outcome chat_id))
    (fun e => logging_error (failure_line (exn_text e) chat_id)) w
  = (Ok tt, add_trace w (turn send outcome chat_id)).
Proof.
  unfold try_except, attempt, turn, bindM, emit, logging_error, emit, ret, raise.
  destruct (outcome chat_id); simpl; auto.
  now rewrite add_trace_app.
Qed.

(** The delivery loop never raises and takes a turn for every id. *)
Lemma for_each_guarded send outcome chat_ids w :
  for_each chat_ids
    (fun chat_id =>
       try_except
         (attempt (send chat_id) (outcome chat_id))
         (fun e => logging_error (failure_line (exn_text e) chat_id))) w
  = (Ok tt, add_trace w (flat_map (turn send outcome) chat_ids)).
Proof.
  revert w. induction chat_ids as [|x xs IH]; intros w; simpl.
  - unfold ret. now rewrite add_trace_nil.
  - unfold bindM. rewrite guarded_attempt_turn, IH. now rewrite add_trace_app.
Qed.

Lemma turns_cover send outcome chat_ids chat_id :
  In chat_id chat_ids ->
  In (send chat_id) (flat_map (turn send outcome) chat_ids)
  /\ forall e, outcome chat_id = Some e ->
       In (Log ERROR (failure_line e chat_id))
          (flat_map (turn send outcome) chat_ids).
Proof.
  intros Hin. split.
  - apply in_flat_map. exists chat_id. split; auto. now left.
  - intros e He. apply in_flat_map. exists chat_id. split; auto.
    unfold turn. rewrite He. right. now left.
Qed.

(** C8. For a name that is not in the plugin map, [run_plugin_named]
    returns without raising and does one thing only: it logs the error
    line.  The trace gets no store query and no plugin call, and the store
    is the one it was. *)
Theorem unknown_plugin_only_logged self plugin_name w :
  dict_get plugin_name (plugins self) = None ->
  run_plugin_named self plugin_name w
  = (Ok tt,
     {| store := store w; secrets := secrets w;
        trace := trace w
                 ++ [Log ERROR ("Running (not found): " ++ plugin_name)%string] |}).
Proof.
  intros H. unfold run_plugin_named, dict_mem. rewrite H. reflexivity.
Qed.

Lemma unknown_plugin_only_logged_witness :
  run_plugin_named {| updater_bot := flaky_bot; plugins := [] |} "panda"
    {| store := three_users; secrets := Missing; trace := [] |}
  = (Ok tt,
     {| store := three_users; secrets := Missing;
        trace := [Log ERROR "Running (not found): panda"] |}).
Proof.
  apply (unknown_plugin_only_logged
           {| updater_bot := flaky_bot; plugins := [] |} "panda"
           {| store := three_users; secrets := Missing; trace := [] |}).
  reflexivity.
Defined.

(** C7. The delivery loops of [psa], [kjilat.run] and [bigpanda.run] never
    raise: for every id of the list, in order, a send is attempted, and a
    send that raises adds the error line with the id and the error text;
    the loop then goes on with the next id. *)
Theorem fan_out_isolation bot chat_ids w :
  (forall self message,
      updater_bot self = bot ->
      subscriber None (store w) = Ok chat_ids ->
      psa self message w
      = (Ok tt,
         add_trace w
           ([QueryStore None;
             Log INFO ("PSAing " ++ str (Z.of_nat (length chat_ids))
                       ++ " people.")%string]
            ++ flat_map (turn (fun chat_id => SendMessage chat_id message)
                              (fun chat_id => send_message bot chat_id message))
                 chat_ids)))
  /\ (forall image config,
        kjilat.run (Ok image) bot chat_ids config w
        = (Ok tt,
           add_trace w
             (flat_map
                (turn (fun chat_id =>
                         SendPhoto chat_id (kjilat.url image) (kjilat.title image))
                      (fun chat_id =>
                         send_photo bot chat_id (kjilat.url image)
                           (kjilat.title image)))
                chat_ids)))
  /\ (forall fetch config post,
        fetch config = Ok post ->
        bigpanda.run fetch bot chat_ids config w
        = (Ok tt,
           add_trace w
             (flat_map
                (turn (fun chat_id =>
                         SendPhoto chat_id (bigpanda.image post)
                           (bigpanda.caption post))
                      (fun chat_id =>
                         send_photo bot chat_id (bigpanda.image post)
                           (bigpanda.caption post)))
                chat_ids)))
  /\ (forall send outcome chat_id,
        In chat_id chat_ids ->
        In (send chat_id) (flat_map (turn send outcome) chat_ids)
        /\ forall e, outcome chat_id = Some e ->
             In (Log ERROR (failure_line e chat_id))
                (flat_map (turn send outcome) chat_ids)).
Proof.
  split; [|split; [|split]].
  - intros self message <- Hsub.
    unfold psa, bindM, call_subscriber, logging_info, emit. simpl.
    rewrite Hsub.
    rewrite (for_each_guarded (fun chat_id => SendMessage chat_id message)
               (fun chat_id => send_message (updater_bot self) chat_id message)).
    now rewrite !add_trace_app.
  - intros image config. unfold kjilat.run, bindM, lift.
    apply (for_each_guarded
             (fun chat_id =>
                SendPhoto chat_id (kjilat.url image) (kjilat.title image))
             (fun chat_id =>
                send_photo bot chat_id (kjilat.url image) (kjilat.title image))).
  - intros fetch config post Hfetch. unfold bigpanda.run, bindM, lift.
    rewrite Hfetch.
    apply (for_each_guarded
             (fun chat_id =>
                SendPhoto chat_id (bigpanda.image post) (bigpanda.caption post))
             (fun chat_id =>
                send_photo bot chat_id (bigpanda.image post)
                  (bigpanda.caption post))).
  - intros send outcome chat_id. apply turns_cover.
Qed.

Lemma fan_out_isolation_witness :
  psa {| updater_bot := flaky_bot; plugins := [] |} "hello" world0
  = (Ok tt,
     add_trace world0
       [QueryStore None; Log INFO "PSAing 3 people.";
        SendMessage 1 "hello";
        SendMessage 2 "hello"; Log ERROR "'Forbidden' for 2";
        SendMessage 3 "hello"])
  /\ kjilat.run (Ok kim) flaky_bot [1; 2; 3] [] world0
     = (Ok tt,
        add_trace world0
          [SendPhoto 1 "https://example.org/corn.jpg" "looking at corn";
           SendPhoto 2 "https://example.org/corn.jpg" "looking at corn";
           Log ERROR "'Forbidden' for 2";
           SendPhoto 3 "https://example.org/corn.jpg" "looking at corn"])
  /\ bigpanda.run (fun _ => Ok panda_post) flaky_bot [1; 2; 3] [] world0
     = (Ok tt,
        add_trace world0
          [SendPhoto 1 "jpeg" (bigpanda.caption panda_post);
           SendPhoto 2 "jpeg" (bigpanda.caption panda_post);
           Log ERROR "'Forbidden' for 2";
           SendPhoto 3 "jpeg" (bigpanda.caption panda_post)])
  /\ In (SendMessage 3 "hello")
        (flat_map (turn (fun chat_id => SendMessage chat_id "hello")
                        (fun chat_id => send_message flaky_bot chat_id "hello"))
           [1; 2; 3]).
Proof.
  destruct (fan_out_isolation flaky_bot [1; 2; 3] world0)
    as (Hpsa & Hkim & Hpanda & Hcover).
  split; [|split; [|split]].
  - apply (Hpsa {| updater_bot := flaky_bot; plugins := [] |} "hello");
      reflexivity.
  - apply (Hkim kim []).
  - apply (Hpanda (fun _ => Ok panda_post) [] panda_post). reflexivity.
  - apply (Hcover (fun chat_id => SendMessage chat_id "hello")
                  (fun chat_id => send_message flaky_bot chat_id "hello") 3).
    simpl. auto.
Defined.

(** Firing "panda" for the subscribers 1, 2 and 3 when the send to 2 fails:
    1 and 3 get their photo and one error line names 2. *)
Example fire_panda_with_one_failure :
  run_plugin_named
    {| updater_bot := flaky_bot; plugins := [("panda", panda_plugin)] |}
    "panda" world0
  = (Ok tt,
     add_trace world0
       [QueryStore (Some "panda");
        Log INFO "Running: panda for 3 subscriber[s]";
        ReadSecrets;
        Invoke "panda" [1; 2; 3];
        SendPhoto 1 "jpeg" (bigpanda.caption panda_post);
        SendPhoto 2 "jpeg" (bigpanda.caption panda_post);
        Log ERROR "'Forbidden' for 2";
        SendPhoto 3 "jpeg" (bigpanda.caption panda_post)]).
Proof. reflexivity. Qed.

Example kjilat_daily_wraps_around :
  kjilat.daily 18752
    [[("img", "looking at corn"); ("src", "https://example.org/corn.jpg")];
     [("img", "looking at fish"); ("src", "https://example.org/fish.jpg")];
     [("img", "looking at a shoe"); ("src", "https://example.org/shoe.jpg")]]
  = Ok {| kjilat.index := 2; kjilat.title := "looking at a shoe";
          kjilat.url := "https://example.org/shoe.jpg" |}
  /\ kjilat.daily 18752 [] = Raise ZeroDivisionError.
Proof. split; reflexivity. Qed.

(** ** Scenarios of the subscription store *)

Example scenario_two_then_one :
  after (unsubscribe 42 "panda")
    (after (subscribe nodup_str 42 "kjilat" None)
       (after (subscribe nodup_str 42 "panda" None) Missing))
  = Doc [("42", VDict [("subscriptions", VList [VStr "kjilat"])])].
Proof. reflexivity. Qed.

Example scenario_last_one :
  after (unsubscribe 42 "kjilat")
    (Doc [("42", VDict [("subscriptions", VList [VStr "kjilat"])])])
  = Doc [].
Proof. reflexivity. Qed.

(** A second press of the same unsubscribe button finds no record. *)
Example scenario_unsubscribe_again :
  unsubscribe 42 "kjilat" (Doc []) = Raise AttributeError.
Proof. reflexivity. Qed.

(** * Further properties *)

(** ** Plugin discovery *)

Lemma qualifies_hasattr p :
  hasattr (HOUR p) && hasattr (MINUTE p) && hasattr (run p) = true <-> qualifies p.
Proof.
  unfold qualifies. destruct (HOUR p), (MINUTE p), (run p); simpl;
    split; try discriminate; try (intros (? & ? & ?); congruence);
    intros _; repeat split; discriminate.
Qed.

Lemma load_plugins_loop_exact load_plugin names acc registered :
  (forall k p, dict_get k acc = Some p -> load_plugin k = Ok p /\ qualifies p) ->
  NoDup (keys acc) ->
  load_plugins_loop load_plugin names acc = Ok registered ->
  NoDup (keys registered)
  /\ forall k p,
       dict_get k registered = Some p <->
       dict_get k acc = Some p
       \/ (In k names /\ load_plugin k = Ok p /\ qualifies p).
Proof.
  revert acc. induction names as [|name names IH]; simpl; intros acc Hacc Hnd H.
  - injection H as <-. split; auto. intros k p. tauto.
  - destruct (load_plugin name) as [q|e] eqn:Hq; simpl in H; [|discriminate].
    destruct (hasattr (HOUR q) && hasattr (MINUTE q) && hasattr (run q))
      eqn:Hattr.
    + apply qualifies_hasattr in Hattr.
      destruct (IH (dict_set name q acc)) as [Hnd' Hiff]; auto.
      * intros k p. destruct (string_dec k name) as [->|Hne].
        -- rewrite dict_get_set_eq. intros [= <-]. auto.
        -- rewrite dict_get_set_neq by assumption. auto.
      * now apply NoDup_keys_set.
      * split; auto. intros k p. rewrite Hiff.
        destruct (string_dec k name) as [->|Hne].
        -- rewrite dict_get_set_eq. split.
           ++ intros [[= <-]|(Hin & Hl & Hp)]; right; auto.
           ++ intros [Hk|(_ & Hl & Hp)].
              ** left. apply Hacc in Hk as [Hl _]. congruence.
              ** left. congruence.
        -- rewrite dict_get_set_neq by assumption. split.
           ++ intros [Hk|(Hin & Hl & Hp)]; auto.
           ++ intros [Hk|([Heq|Hin] & Hl & Hp)]; auto. congruence.
    + destruct (IH acc) as [Hnd' Hiff]; auto.
      split; auto. intros k p. rewrite Hiff. split.
      * intros [Hk|(Hin & Hl & Hp)]; auto.
      * intros [Hk|([Heq|Hin] & Hl & Hp)]; auto.
        subst k. rewrite Hq in Hl. injection Hl as <-.
        apply qualifies_hasattr in Hp. congruence.
Qed.

Lemma load_plugins_exact plugin_source registered :
  load_plugins plugin_source = Ok registered ->
  NoDup (keys registered)
  /\ forall k p,
       dict_get k registered = Some p <->
       In k (list_plugins plugin_source)
       /\ load_plugin plugin_source k = Ok p /\ qualifies p.
Proof.
  intros H. unfold load_plugins in H.
  assert (Hacc : forall k p, dict_get k (@nil (string * plugin)) = Some p ->
            load_plugin plugin_source k = Ok p /\ qualifies p)
    by discriminate.
  destruct (load_plugins_loop_exact _ _ [] _ Hacc (NoDup_nil _) H)
    as [Hnd Hiff].
  split; auto.
  intros k p. rewrite Hiff. simpl. split.
  - intros [Habs|Hr]; [discriminate | exact Hr].
  - auto.
Qed.

(** X1. When discovery returns, the plugin map holds each name once, and it
    holds [k] with module [p] exactly when [k] is listed by the plugin
    source, loads as [p], and [p] has [HOUR], [MINUTE] and [run]. *)
Theorem load_plugins_registers_exactly plugin_source registered :
  load_plugins plugin_source = Ok registered ->
  NoDup (keys registered)
  /\ forall k p,
       dict_get k registered = Some p <->
       In k (list_plugins plugin_source)
       /\ load_plugin plugin_source k = Ok p /\ qualifies p.
Proof. apply load_plugins_exact. Qed.

Lemma load_plugins_registers_exactly_witness :
  NoDup (keys [("panda", panda_plugin)])
  /\ forall k p,
       dict_get k [("panda", panda_plugin)] = Some p <->
       In k ["late"; "panda"]
       /\ (if String.eqb k "late" then Ok late_plugin else Ok panda_plugin) = Ok p
       /\ qualifies p.
Proof.
  apply (load_plugins_registers_exactly
           {| list_plugins := ["late"; "panda"];
              load_plugin := fun k => if String.eqb k "late"
                                      then Ok late_plugin else Ok panda_plugin |}
           [("panda", panda_plugin)]).
  reflexivity.
Defined.

Lemma load_plugins_loop_returns load_plugin names acc :
  (exists registered, load_plugins_loop load_plugin names acc = Ok registered)
  <-> forall k, In k names -> exists p, load_plugin k = Ok p.
Proof.
  revert acc. induction names as [|name names IH]; simpl; intros acc.
  - split; [intros _ k [] | eauto].
  - destruct (load_plugin name) as [q|e] eqn:Hq; simpl.
    + destruct (hasattr (HOUR q) && hasattr (MINUTE q) && hasattr (run q));
        rewrite IH; split; intros H k; try (intros [<-|Hk]; eauto);
        intros Hk; apply H; auto.
    + split.
      * intros (r & Hr). discriminate.
      * intros H. destruct (H name) as (p & Hp); auto. congruence.
Qed.

(** X2. Discovery returns exactly when every listed candidate loads: one
    candidate whose import raises makes [load_plugins] raise as a whole. *)
Theorem load_plugins_returns_iff_all_load plugin_source :
  (exists registered, load_plugins plugin_source = Ok registered)
  <-> forall k, In k (list_plugins plugin_source) ->
                exists p, load_plugin plugin_source k = Ok p.
Proof. apply load_plugins_loop_returns. Qed.

(** ** The schedule *)

Lemma datetime_time_spec h m :
  (0 <= h < 24 /\ 0 <= m < 60 -> datetime_time h m 0 = Ok (h, m, 0))
  /\ (~ (0 <= h < 24 /\ 0 <= m < 60) ->
      datetime_time h m 0
      = Raise (if c_int h && c_int m then ValueError else OverflowError)).
Proof.
  unfold datetime_time, c_int.
  destruct (-2147483648 <=? h) eqn:C1, (h <=? 2147483647) eqn:C2,
           (-2147483648 <=? m) eqn:C3, (m <=? 2147483647) eqn:C4,
           (0 <=? h) eqn:H1, (h <? 24) eqn:H2,
           (0 <=? m) eqn:H3, (m <? 60) eqn:H4; simpl;
    rewrite ?Z.leb_le, ?Z.leb_gt, ?Z.ltb_lt, ?Z.ltb_ge in *;
    split; intros H; try reflexivity; exfalso; lia.
Qed.

Lemma datetime_time_ok h m :
  0 <= h < 24 /\ 0 <= m < 60 <-> datetime_time h m 0 = Ok (h, m, 0).
Proof.
  destruct (datetime_time_spec h m) as [Hok Hbad]. split; auto.
  intros H. destruct (Z_le_dec 0 h), (Z_lt_dec h 24), (Z_le_dec 0 m),
    (Z_lt_dec m 60); try lia; rewrite Hbad in H by lia; discriminate.
Qed.

Lemma datetime_time_inv h m t :
  datetime_time h m 0 = Ok t -> t = (h, m, 0).
Proof.
  destruct (datetime_time_spec h m) as [Hok Hbad]. intros H.
  destruct (Z_le_dec 0 h), (Z_lt_dec h 24), (Z_le_dec 0 m), (Z_lt_dec m 60);
    try (rewrite Hok in H by lia; congruence);
    rewrite Hbad in H by lia; discriminate.
Qed.

Lemma schedule_exact registered job_queue :
  (Forall (fun entry => time_ok (snd entry)) registered ->
   schedule_plugin_messages registered job_queue
   = Ok (job_queue ++ map job_of registered))
  /\ (forall jobs,
        schedule_plugin_messages registered job_queue = Ok jobs ->
        Forall (fun entry => time_ok (snd entry)) registered
        /\ jobs = job_queue ++ map job_of registered).
Proof.
  revert job_queue. induction registered as [|[name p] rest IH];
    intros job_queue; simpl.
  - rewrite app_nil_r. split; auto. intros jobs [= <-]. auto.
  - split.
    + intros Hall. inversion Hall as [|? ? Hp Hrest]; subst.
      apply datetime_time_ok in Hp. simpl in Hp. rewrite Hp. simpl.
      rewrite (proj1 (IH _) Hrest), <- app_assoc. reflexivity.
    + intros jobs H.
      destruct (datetime_time (plugin_hour p) (plugin_minute p) 0)
        as [t|e] eqn:Ht; simpl in H; [|discriminate].
      pose proof (datetime_time_inv _ _ _ Ht) as ->.
      apply datetime_time_ok in Ht.
      destruct (proj2 (IH _) jobs H) as [Hrest ->].
      split; [constructor; auto|]. now rewrite <- app_assoc.
Qed.

(** X4. After discovery and scheduling, every job of the queue names a
    registered plugin, fires at the hour and minute that plugin declares,
    at second 0, and no two jobs have the same name: a scheduled firing
    never takes the not-found branch of [run_plugin_named]. *)
Theorem scheduled_jobs_match_registry plugin_source registered jobs :
  load_plugins plugin_source = Ok registered ->
  schedule_plugin_messages registered [] = Ok jobs ->
  NoDup (map job_name jobs)
  /\ forall j, In j jobs ->
       exists p, dict_get (job_name j) registered = Some p
                 /\ HOUR p = Some (hour j) /\ MINUTE p = Some (minute j)
                 /\ second j = 0
                 /\ dict_mem (job_name j) registered = true.
Proof.
  intros Hreg Hjobs.
  destruct (load_plugins_exact plugin_source registered Hreg)
    as [Hnd Hiff].
  destruct (proj2 (schedule_exact registered []) jobs Hjobs)
    as [_ ->].
  simpl. split.
  - rewrite map_map. exact Hnd.
  - intros j Hj. apply in_map_iff in Hj as ([name p] & <- & Hin).
    exists p. simpl.
    assert (Hget : dict_get name registered = Some p)
      by now apply In_dict_get.
    apply Hiff in Hget as Hq. destruct Hq as (_ & _ & Hh & Hm & _).
    unfold plugin_hour, plugin_minute, dict_mem. rewrite Hget.
    destruct (HOUR p), (MINUTE p); try congruence. auto.
Qed.

Lemma scheduled_jobs_match_registry_witness :
  NoDup (map job_name [{| job_name := "panda"; hour := 8; minute := 51;
                          second := 0 |}])
  /\ forall j,
       In j [{| job_name := "panda"; hour := 8; minute := 51; second := 0 |}] ->
       exists p, dict_get (job_name j) [("panda", panda_plugin)] = Some p
                 /\ HOUR p = Some (hour j) /\ MINUTE p = Some (minute j)
                 /\ second j = 0
                 /\ dict_mem (job_name j) [("panda", panda_plugin)] = true.
Proof.
  apply (scheduled_jobs_match_registry two_candidates); reflexivity.
Defined.

(** ** Who is served *)

Lemma subscriber_loop_NoDup q d :
  Forall (fun kr => (exists z, fst kr = str z) /\ wf_record (snd kr)) d ->
  NoDup (keys d) ->
  exists us, subscriber_loop q d = Ok us
    /\ NoDup us /\ forall u, In u us -> In (str u) (keys d).
Proof.
  induction 1 as [|[k r] d [[z Hk] Hr] Hd IH]; simpl in *; intros Hnd.
  - exists []. split; auto. split; [constructor | intros u []].
  - subst k. inversion Hnd as [|? ? Hnotin Hnd']; subst.
    destruct (IH Hnd') as (us & Heq & Hus & Hin).
    destruct Hr as (t & l & -> & _).
    assert (Hkeep : exists b,
      match q with
      | Some p => s <- py_get (VDict t) "subscriptions" (VList []) ;;
                  Ok (contains p s)
      | None => Ok true
      end = Ok b).
    { destruct q; [rewrite py_get_old_subs|]; simpl; eauto. }
    destruct Hkeep as (b & ->). simpl. destruct b.
    + rewrite int_of_str_str, Heq. simpl. eexists. split; [reflexivity|].
      split.
      * constructor; auto.
      * intros u [<-|Hu]; auto.
    + exists us. repeat split; auto.
Qed.

(** ** What [unsubscribe] takes away *)

Lemma subscriptions_wf_doc d u :
  wf_doc d ->
  (dict_get (str u) d = None /\ subscriptions u (Doc d) = Ok (VList []))
  \/ exists t l,
       dict_get (str u) d = Some (VDict t)
       /\ dict_get "subscriptions" t = Some (VList (map VStr l))
       /\ NoDup l /\ l <> []
       /\ subscriptions u (Doc d) = Ok (VList (map VStr l)).
Proof.
  intros Hwf. rewrite subscriptions_eq.
  destruct (dict_get (str u) d) as [r|] eqn:Hr; [right | left; auto].
  destruct (wf_doc_get _ _ _ Hwf Hr) as (_ & t & l & -> & Hs & Hnd & Hne).
  exists t, l. repeat split; auto.
  rewrite py_get_old_subs. unfold old_subs. now rewrite Hs.
Qed.

Lemma unsubscribe_member_wf d u p t l :
  dict_get (str u) d = Some (VDict t) ->
  dict_get "subscriptions" t = Some (VList (map VStr l)) ->
  NoDup l -> In p l ->
  exists f',
    unsubscribe u p (Doc d) = Ok f'
    /\ subscriptions u f' = Ok (VList (map VStr (without p l))).
Proof.
  intros Hu Hs Hnd Hin. rewrite unsubscribe_eq. cbn [load_or_empty exists_ load bind].
  rewrite Hu. unfold old_subs. rewrite Hs. cbn [contains].
  rewrite (proj2 (existsb_is_str p l) Hin).
  rewrite list_remove_NoDup by assumption. cbn [bind].
  eexists. split; [reflexivity|]. rewrite subscriptions_eq.
  destruct (without p l) as [|s l'] eqn:Hw; cbn [map falsy].
  - now rewrite dict_get_del_eq.
  - rewrite dict_get_set_eq, py_get_old_subs. unfold old_subs.
    now rewrite dict_get_set_eq.
Qed.

Lemma unsubscribe_exact_wf f u p l :
  wf_file f ->
  subscriptions u f = Ok (VList l) ->
  In (VStr p) l ->
  exists f' l',
    unsubscribe u p f = Ok f'
    /\ subscriptions u f' = Ok (VList l')
    /\ forall x, In x l' <-> In x l /\ x <> VStr p.
Proof.
  intros Hreach Hsubs Hp.
  destruct f as [| | |d]; simpl in Hreach; try tauto.
  { injection Hsubs as <-. destruct Hp. }
  destruct (subscriptions_wf_doc d u Hreach)
    as [[_ Hempty]|(t & l0 & Hu & Hs & Hnd & _ & Hl0)].
  { rewrite Hempty in Hsubs. injection Hsubs as <-. destruct Hp. }
  rewrite Hl0 in Hsubs. injection Hsubs as <-.
  apply In_VStr_map in Hp.
  destruct (unsubscribe_member_wf d u p t l0 Hu Hs Hnd Hp) as (f' & Hun & Hget).
  exists f', (map VStr (without p l0)). repeat split; auto.
  - apply in_map_iff in H as (s & <- & Hs'). apply without_In in Hs'.
    apply In_VStr_map. tauto.
  - apply in_map_iff in H as (s & <- & Hs'). apply without_In in Hs'.
    intros [= E]. tauto.
  - intros [Hx Hne]. apply in_map_iff in Hx as (s & <- & Hs').
    apply In_VStr_map, without_In. split; auto. congruence.
Qed.




Lemma subscribe_result_list list_set u p n f l0 :
  set_order list_set ->
  subscriptions u f = Ok (VList (map VStr l0)) ->
  exists f' l,
    subscribe list_set u p n f = Ok f'
    /\ subscriptions u f' = Ok (VList (map VStr l))
    /\ forall x, In x l <-> In x l0 \/ x = p.
Proof.
  intros Hord Hsubs.
  destruct (subscriptions_strings u f l0 Hsubs) as (d & t & Hd & Ht & Ho).
  rewrite subscribe_eq, Hd. simpl. rewrite Ht. simpl. rewrite Ho. simpl.
  change [VStr p] with (map VStr [p]). rewrite <- map_app, hashables_map.
  simpl. eexists _, (list_set (l0 ++ [p])).
  destruct (Hord (l0 ++ [p])) as [_ Hin].
  split; [reflexivity|]. split.
  - rewrite subscriptions_eq, dict_get_set_eq, py_get_old_subs.
    unfold old_subs. now rewrite get_subs_with_name.
  - intros x. rewrite Hin, in_app_iff. simpl. intuition congruence.
Qed.

Lemma subscriptions_wf f u :
  wf_file f -> exists l, subscriptions u f = Ok (VList (map VStr l)).
Proof.
  intros Hreach.
  destruct f as [| | |d]; simpl in Hreach; try tauto.
  - now exists [].
  - destruct (subscriptions_wf_doc d u Hreach)
      as [[_ H]|(t & l & _ & _ & _ & _ & H)]; [now exists [] | now exists l].
Qed.

(** ** Firing a registered plugin *)

Lemma run_plugin_named_found self plugin_name p f w :
  dict_get plugin_name (plugins self) = Some p -> run p = Some f ->
  run_plugin_named self plugin_name w =
  match subscriber (Some plugin_name) (store w) with
  | Raise e => (Raise e, add_trace w [QueryStore (Some plugin_name)])
  | Ok ids =>
      match load (secrets w) with
      | Raise e =>
          (Raise e,
           add_trace w
             [QueryStore (Some plugin_name);
              Log INFO ("Running: " ++ plugin_name ++ " for "
                        ++ str (Z.of_nat (length ids)) ++ " subscriber[s]")%string;
              ReadSecrets])
      | Ok config =>
          f (updater_bot self) ids config
            (add_trace w
               [QueryStore (Some plugin_name);
                Log INFO ("Running: " ++ plugin_name ++ " for "
                          ++ str (Z.of_nat (length ids)) ++ " subscriber[s]")%string;
                ReadSecrets; Invoke plugin_name ids])
      end
  end.
Proof.
  intros Hp Hf. unfold run_plugin_named, dict_mem. rewrite Hp.
  unfold bindM, call_subscriber, logging_info, read_secrets, emit, lift, getitem.
  simpl. destruct (subscriber (Some plugin_name) (store w)) as [ids|e]; auto.
  rewrite Hp, Hf. unfold ret. simpl.
  destruct (load (secrets w)) as [config|e]; simpl;
    now rewrite !add_trace_app.
Qed.

(** X8. For a registered plugin, a failing read stops the firing before
    any delivery: when [subscriber] raises, the error leaves
    [run_plugin_named] with only the store query in the trace, and when
    the secrets file cannot be read or parsed, with the query, the log
    line and the read; in neither case is the plugin's [run] called. *)
Theorem failed_read_prevents_delivery self plugin_name p f w e :
  dict_get plugin_name (plugins self) = Some p -> run p = Some f ->
  (subscriber (Some plugin_name) (store w) = Raise e ->
   run_plugin_named self plugin_name w
   = (Raise e, add_trace w [QueryStore (Some plugin_name)]))
  /\ (forall ids,
        subscriber (Some plugin_name) (store w) = Ok ids ->
        load (secrets w) = Raise e ->
        run_plugin_named self plugin_name w
        = (Raise e,
           add_trace w
             [QueryStore (Some plugin_name);
              Log INFO ("Running: " ++ plugin_name ++ " for "
                        ++ str (Z.of_nat (length ids)) ++ " subscriber[s]")%string;
              ReadSecrets])).
Proof.
  intros Hp Hf. rewrite (run_plugin_named_found self plugin_name p f w Hp Hf).
  split.
  - now intros ->.
  - intros ids -> ->. reflexivity.
Qed.

Lemma failed_read_prevents_delivery_witness :
  run_plugin_named
    {| updater_bot := flaky_bot; plugins := [("panda", panda_plugin)] |}
    "panda" {| store := Corrupt; secrets := Doc []; trace := [] |}
  = (Raise TomlDecodeError,
     add_trace {| store := Corrupt; secrets := Doc []; trace := [] |}
       [QueryStore (Some "panda")])
  /\ run_plugin_named
       {| updater_bot := flaky_bot; plugins := [("panda", panda_plugin)] |}
       "panda" {| store := three_users; secrets := Missing; trace := [] |}
     = (Raise OSError,
        add_trace {| store := three_users; secrets := Missing; trace := [] |}
          [QueryStore (Some "panda");
           Log INFO "Running: panda for 3 subscriber[s]"; ReadSecrets]).
Proof.
  split.
  - apply (proj1 (failed_read_prevents_delivery
                    {| updater_bot := flaky_bot;
                       plugins := [("panda", panda_plugin)] |}
                    "panda" panda_plugin
                    (bigpanda.run (fun _ => Ok panda_post))
                    {| store := Corrupt; secrets := Doc []; trace := [] |}
                    TomlDecodeError eq_refl eq_refl)).
    reflexivity.
  - apply (proj2 (failed_read_prevents_delivery
                    {| updater_bot := flaky_bot;
                       plugins := [("panda", panda_plugin)] |}
                    "panda" panda_plugin
                    (bigpanda.run (fun _ => Ok panda_post))
                    {| store := three_users; secrets := Missing; trace := [] |}
                    OSError eq_refl eq_refl) [1; 2; 3]); reflexivity.
Defined.

(** ** The daily image of [kjilat] *)

Lemma nth_error_in_range {A : Type} (l : list A) (i : Z) :
  l <> [] ->
  exists x, nth_error l (Z.to_nat (i mod Z.of_nat (length l))) = Some x.
Proof.
  intros Hl.
  assert (Hlen : 0 < Z.of_nat (length l)) by (destruct l; simpl; [congruence | lia]).
  pose proof (Z.mod_pos_bound i _ Hlen) as Hb.
  destruct (nth_error l (Z.to_nat (i mod Z.of_nat (length l)))) as [x|] eqn:E;
    eauto.
  apply nth_error_None in E. lia.
Qed.

(** X10. [Image.for_index] raises [ZeroDivisionError] on an empty image
    list and never indexes out of range on a non-empty one: for any day
    count, also a negative one, it picks the entry at the day count modulo
    the length, and it picks the same entry again one full cycle of days
    later.  It raises [KeyError] only when that entry lacks ["img"] or
    ["src"]. *)
Theorem for_index_cycles day images :
  kjilat.for_index day [] = Raise ZeroDivisionError
  /\ (images <> [] ->
      exists entry,
        nth_error images (Z.to_nat (day mod Z.of_nat (length images)))
        = Some entry
        /\ 0 <= day mod Z.of_nat (length images) < Z.of_nat (length images)
        /\ kjilat.for_index day images
           = (t <- getitem "img" entry ;;
              u <- getitem "src" entry ;;
              Ok {| kjilat.index := day mod Z.of_nat (length images);
                    kjilat.title := t; kjilat.url := u |})
        /\ kjilat.for_index (day + Z.of_nat (length images)) images
           = kjilat.for_index day images).
Proof.
  split; [reflexivity|]. intros Hl.
  destruct (nth_error_in_range images day Hl) as (entry & Hentry).
  assert (Hlen : 0 < Z.of_nat (length images))
    by (destruct images; simpl; [congruence | lia]).
  exists entry. split; [exact Hentry|]. split.
  { now apply Z.mod_pos_bound. }
  assert (Hne : (length images =? 0)%nat = false)
    by (apply Nat.eqb_neq; lia).
  split.
  - unfold kjilat.for_index. rewrite Hne. cbn [bind]. now rewrite Hentry.
  - unfold kjilat.for_index. rewrite Hne. cbn [bind].
    replace ((day + Z.of_nat (length images)) mod Z.of_nat (length images))
      with (day mod Z.of_nat (length images)); auto.
    rewrite <- (Z.mul_1_l (Z.of_nat (length images))) at 2.
    now rewrite Z.mod_add by lia.
Qed.

Lemma for_index_cycles_witness :
  exists entry,
    nth_error [[("img", "corn"); ("src", "c.jpg")];
               [("img", "fish"); ("src", "f.jpg")]]
      (Z.to_nat ((-1) mod Z.of_nat 2)) = Some entry
    /\ 0 <= (-1) mod Z.of_nat 2 < Z.of_nat 2
    /\ kjilat.for_index (-1)
         [[("img", "corn"); ("src", "c.jpg")];
          [("img", "fish"); ("src", "f.jpg")]]
       = (t <- getitem "img" entry ;;
          u <- getitem "src" entry ;;
          Ok {| kjilat.index := (-1) mod Z.of_nat 2;
                kjilat.title := t; kjilat.url := u |})
    /\ kjilat.for_index (-1 + Z.of_nat 2)
         [[("img", "corn"); ("src", "c.jpg")];
          [("img", "fish"); ("src", "f.jpg")]]
       = kjilat.for_index (-1)
           [[("img", "corn"); ("src", "c.jpg")];
            [("img", "fish"); ("src", "f.jpg")]].
Proof.
  apply (proj2 (for_index_cycles (-1)
                  [[("img", "corn"); ("src", "c.jpg")];
                   [("img", "fish"); ("src", "f.jpg")]])).
  discriminate.
Defined.

(** ** The secrets file *)

(** X11. When [verify_secrets] returns, the secrets file parses and has a
    [telegram] entry that contains ["bot_id"].  If that entry is a table,
    [get_telegram_token] returns the value stored under [bot_id]; if it is
    a string or an array that merely contains ["bot_id"], the check passes
    all the same and [get_telegram_token] raises [TypeError]. *)
Theorem verified_secrets_token f :
  verify_secrets f = Ok tt ->
  exists d t,
    f = Doc d /\ dict_get "telegram" d = Some t
    /\ contains "bot_id" t = true
    /\ match t with
       | VDict table =>
           exists v, dict_get "bot_id" table = Some v
                     /\ get_telegram_token f = Ok v
       | _ => get_telegram_token f = Raise TypeError
       end.
Proof.
  unfold verify_secrets, get_telegram_token.
  destruct f as [| | |d]; simpl; try discriminate.
  unfold dict_mem, getitem.
  destruct (dict_get "telegram" d) as [t|] eqn:Ht; simpl; [|discriminate].
  destruct (contains "bot_id" t) eqn:Hc; simpl; [|discriminate].
  intros _. exists d, t. repeat split; auto.
  destruct t as [s|l|table]; simpl; auto.
  simpl in Hc. unfold dict_mem in Hc. unfold getitem.
  destruct (dict_get "bot_id" table) as [v|]; [eauto | discriminate].
Qed.

Lemma verified_secrets_token_witness :
  exists d t,
    Doc [("telegram", VDict [("bot_id", VStr "123:abc")])] = Doc d
    /\ dict_get "telegram" d = Some t
    /\ contains "bot_id" t = true
    /\ match t with
       | VDict table =>
           exists v, dict_get "bot_id" table = Some v
                     /\ get_telegram_token
                          (Doc [("telegram", VDict [("bot_id", VStr "123:abc")])])
                        = Ok v
       | _ => get_telegram_token
                (Doc [("telegram", VDict [("bot_id", VStr "123:abc")])])
              = Raise TypeError
       end.
Proof.
  apply (verified_secrets_token
           (Doc [("telegram", VDict [("bot_id", VStr "123:abc")])])).
  reflexivity.
Defined.

(** ** Splitting and joining *)

Lemma split_on_nonnil sep s : split_on sep s <> [].
Proof.
  destruct s as [|a s]; simpl; [discriminate|].
  destruct (Ascii.eqb a sep); [discriminate|].
  destruct (split_on sep s); discriminate.
Qed.

Lemma split_on_free sep s : free_of sep s = true -> split_on sep s = [s].
Proof.
  induction s as [|a s IH]; simpl; auto.
  intros H. apply andb_true_iff in H as [Ha Hs].
  apply negb_true_iff in Ha. rewrite Ha, (IH Hs). reflexivity.
Qed.

Lemma split_on_app sep a b :
  free_of sep a = true ->
  split_on sep (a ++ String sep b) = a :: split_on sep b.
Proof.
  induction a as [|c a IH]; simpl.
  - intros _. now rewrite Ascii.eqb_refl.
  - intros H. apply andb_true_iff in H as [Hc Ha].
    apply negb_true_iff in Hc. rewrite Hc, (IH Ha). reflexivity.
Qed.

Lemma split_on_parts_free sep s : Forall (fun part => free_of sep part = true) (split_on sep s).
Proof.
  induction s as [|a s IH]; simpl.
  - constructor; auto.
  - destruct (Ascii.eqb a sep) eqn:E.
    + constructor; auto.
    + destruct (split_on sep s) as [|part parts].
      * constructor; auto. simpl. now rewrite E.
      * inversion IH; subst. constructor; auto. simpl. now rewrite E.
Qed.

Lemma split_on_not_free sep s :
  free_of sep s = false -> (2 <= length (split_on sep s))%nat.
Proof.
  induction s as [|a s IH]; simpl; [discriminate|].
  destruct (Ascii.eqb a sep) eqn:E; simpl.
  - intros _. pose proof (split_on_nonnil sep s).
    destruct (split_on sep s); simpl; [congruence | lia].
  - intros H. specialize (IH H).
    destruct (split_on sep s); simpl in *; lia.
Qed.

Lemma split_on_concat sep parts :
  parts <> [] ->
  Forall (fun part => free_of sep part = true) parts ->
  split_on sep (String.concat (String sep EmptyString) parts) = parts.
Proof.
  induction parts as [|a parts IH]; [congruence|].
  intros _ Hall. inversion Hall as [|? ? Ha Hparts]; subst.
  destruct parts as [|b parts].
  - simpl. now apply split_on_free.
  - change (String.concat (String sep EmptyString) (a :: b :: parts))
      with (a ++ String sep (String.concat (String sep EmptyString) (b :: parts)))%string.
    rewrite split_on_app by assumption. f_equal. apply IH; auto. discriminate.
Qed.

(** ** The URL cache of [bigpanda] *)

Lemma Forall_skipn_keeps {A : Type} (P : A -> Prop) n (l : list A) :
  Forall P l -> Forall P (skipn n l).
Proof.
  revert l. induction n as [|n IH]; intros l H; simpl; auto.
  destruct H; auto.
Qed.

Lemma Forall_last_n {A : Type} (P : A -> Prop) n (l : list A) :
  Forall P l -> Forall P (panda_cache.last_n n l).
Proof.
  intros H. destruct n; simpl; auto. now apply Forall_skipn_keeps.
Qed.

Lemma free_of_app c a b :
  free_of c (a ++ b) = free_of c a && free_of c b.
Proof.
  induction a as [|x a IH]; simpl; auto. rewrite IH. now rewrite andb_assoc.
Qed.

Lemma split_on_keeps_free c sep s :
  free_of c s = true ->
  Forall (fun part => free_of c part = true) (split_on sep s).
Proof.
  induction s as [|a s IH]; simpl.
  - constructor; auto.
  - intros H. apply andb_true_iff in H as [Ha Hs]. specialize (IH Hs).
    destruct (Ascii.eqb a sep).
    + constructor; auto.
    + destruct (split_on sep s) as [|part parts].
      * constructor; auto. simpl. now rewrite Ha.
      * inversion IH; subst. constructor; auto. simpl.
        rewrite Ha. auto.
Qed.

Lemma universal_newlines_bounded n s :
  (String.length s <= n)%nat ->
  free_of panda_cache.carriage_return (panda_cache.universal_newlines s) = true.
Proof.
  revert s. induction n as [|n IH]; intros s Hlen.
  - destruct s; simpl in *; [reflexivity | lia].
  - destruct s as [|a s]; [reflexivity|]. simpl in *.
    destruct (Ascii.eqb a panda_cache.carriage_return) eqn:Ea.
    + simpl. destruct s as [|b s]; [reflexivity|]. simpl in Hlen.
      destruct (Ascii.eqb b newline); apply IH; simpl; lia.
    + simpl. rewrite Ea. simpl. apply IH. lia.
Qed.

Lemma universal_newlines_free s :
  free_of panda_cache.carriage_return (panda_cache.universal_newlines s) = true.
Proof. now apply (universal_newlines_bounded (String.length s)). Qed.

Lemma universal_newlines_id s :
  free_of panda_cache.carriage_return s = true ->
  panda_cache.universal_newlines s = s.
Proof.
  induction s as [|a s IH]; simpl; auto.
  intros H. apply andb_true_iff in H as [Ha Hs].
  apply negb_true_iff in Ha. rewrite Ha. now rewrite IH.
Qed.

Lemma get_cache_entries f old :
  panda_cache.get_cache f = Ok old ->
  Forall (fun s => free_of newline s = true
                   /\ free_of panda_cache.carriage_return s = true
                   /\ panda_cache.nonempty s = true) old.
Proof.
  destruct f as [| |s]; simpl; try discriminate.
  - intros [= <-]. constructor.
  - intros [= <-]. apply Forall_forall. intros x Hx.
    apply filter_In in Hx as [Hx Hne]. repeat split; auto.
    + pose proof (split_on_parts_free newline
                    (panda_cache.universal_newlines s)) as Hall.
      rewrite Forall_forall in Hall. now apply Hall.
    + pose proof (split_on_keeps_free panda_cache.carriage_return newline _
                    (universal_newlines_free s)) as Hall.
      rewrite Forall_forall in Hall. now apply Hall.
Qed.

Lemma concat_free c sep entries :
  free_of c sep = true ->
  Forall (fun s => free_of c s = true) entries ->
  free_of c (String.concat sep entries) = true.
Proof.
  intros Hsep. induction 1 as [|e entries He Hall IH]; [reflexivity|].
  destruct entries as [|e' entries]; [exact He|].
  change (String.concat sep (e :: e' :: entries))
    with (e ++ sep ++ String.concat sep (e' :: entries))%string.
  rewrite !free_of_app, He, Hsep, IH. reflexivity.
Qed.

Lemma get_cache_concat entries :
  Forall (fun s => free_of newline s = true
                   /\ free_of panda_cache.carriage_return s = true
                   /\ panda_cache.nonempty s = true) entries ->
  panda_cache.get_cache (panda_cache.Text (String.concat nl entries)) = Ok entries.
Proof.
  intros Hall. rewrite Forall_forall in Hall. simpl. f_equal.
  rewrite universal_newlines_id.
  2:{ apply concat_free; [reflexivity|]. apply Forall_forall.
      intros x Hx. now apply Hall. }
  destruct entries as [|e entries]; [reflexivity|].
  unfold nl. rewrite split_on_concat.
  - apply forallb_filter_id. apply forallb_forall. intros x Hx.
    now apply Hall.
  - discriminate.
  - apply Forall_forall. intros x Hx. now apply Hall.
Qed.

Lemma last_n_snoc {A : Type} n (l : list A) (x : A) :
  (0 < n)%nat ->
  exists front, panda_cache.last_n n (l ++ [x]) = front ++ [x]
                /\ (length (front ++ [x]) <= n)%nat.
Proof.
  intros Hn. destruct n as [|n]; [lia|]. unfold panda_cache.last_n.
  rewrite length_app. simpl length.
  rewrite skipn_app.
  replace (length l + 1 - S n - length l)%nat with 0%nat by lia.
  simpl skipn at 2.
  exists (skipn (length l + 1 - S n) l). split; auto.
  rewrite length_app, length_skipn. simpl. lia.
Qed.

(** ** Choosing the post of the day *)

Lemma pick_first_fresh f known posts :
  panda_cache.get_cache f = Ok known ->
  (exists skipped post rest image_url,
      posts = skipped ++ post :: rest
      /\ Forall (stale known) skipped
      /\ panda_cache.preview post = Some image_url
      /\ panda_cache.mem image_url known = false
      /\ snd (panda_cache.pick f posts)
         = Ok (image_url, ("https://reddit.com" ++ panda_cache.permalink post)%string)
      /\ length (fst (panda_cache.pick f posts)) = length skipped)
  \/ (Forall (stale known) posts
      /\ snd (panda_cache.pick f posts) = Ok panda_cache.fallback
      /\ length (fst (panda_cache.pick f posts)) = S (length posts)).
Proof.
  intros Hknown. induction posts as [|post posts IH]; simpl.
  - right. repeat split; auto.
  - destruct (panda_cache.preview post) as [image_url|] eqn:Hpre.
    + rewrite Hknown.
      destruct (panda_cache.mem image_url known) eqn:Hmem.
      * destruct (panda_cache.pick f posts) as [log r]. simpl in *.
        destruct IH as [(skipped & p & rest & u & -> & Hsk & Hp & Hu & Hr & Hlen)
                       |(Hall & Hr & Hlen)].
        -- left. exists (post :: skipped), p, rest, u. repeat split; auto.
           constructor; auto. unfold stale. now rewrite Hpre.
           simpl. now rewrite Hlen.
        -- right. repeat split; auto.
           constructor; auto. unfold stale. now rewrite Hpre.
      * left. exists [], post, posts, image_url. repeat split; auto.
    + destruct (panda_cache.pick f posts) as [log r]. simpl in *.
      destruct IH as [(skipped & p & rest & u & -> & Hsk & Hp & Hu & Hr & Hlen)
                     |(Hall & Hr & Hlen)].
      * left. exists (post :: skipped), p, rest, u. repeat split; auto.
        constructor; auto. unfold stale. now rewrite Hpre.
        simpl. now rewrite Hlen.
      * right. repeat split; auto.
        constructor; auto. unfold stale. now rewrite Hpre.
Qed.

(** X14. With a readable cache, [post_of_the_day] returns the first post,
    day's top posts before the shuffled all-time posts, that has an image
    whose URL is not in the cache, together with its Reddit link, after
    one warning per post it skipped; when every post is without image or
    already cached it returns the built-in fallback pair.  It never
    returns a cached image other than through that fallback. *)
Theorem post_of_the_day_first_fresh f known top_posts fallback_posts :
  panda_cache.get_cache f = Ok known ->
  (exists skipped post rest image_url,
      top_posts ++ fallback_posts = skipped ++ post :: rest
      /\ Forall (stale known) skipped
      /\ panda_cache.preview post = Some image_url
      /\ panda_cache.mem image_url known = false
      /\ snd (panda_cache.post_of_the_day f top_posts fallback_posts)
         = Ok (image_url, ("https://reddit.com" ++ panda_cache.permalink post)%string)
      /\ length (fst (panda_cache.post_of_the_day f top_posts fallback_posts))
         = length skipped)
  \/ (Forall (stale known) (top_posts ++ fallback_posts)
      /\ snd (panda_cache.post_of_the_day f top_posts fallback_posts)
         = Ok panda_cache.fallback
      /\ length (fst (panda_cache.post_of_the_day f top_posts fallback_posts))
         = S (length (top_posts ++ fallback_posts))).
Proof. intros H. now apply pick_first_fresh. Qed.

Lemma post_of_the_day_first_fresh_witness :
  (exists skipped post rest image_url,
      day_posts ++ all_time_posts = skipped ++ post :: rest
      /\ Forall (stale ["https://i.redd.it/a.jpg"]) skipped
      /\ panda_cache.preview post = Some image_url
      /\ panda_cache.mem image_url ["https://i.redd.it/a.jpg"] = false
      /\ snd (panda_cache.post_of_the_day
                (panda_cache.Text "https://i.redd.it/a.jpg")
                day_posts all_time_posts)
         = Ok (image_url, ("https://reddit.com" ++ panda_cache.permalink post)%string)
      /\ length (fst (panda_cache.post_of_the_day
                        (panda_cache.Text "https://i.redd.it/a.jpg")
                        day_posts all_time_posts))
         = length skipped)
  \/ (Forall (stale ["https://i.redd.it/a.jpg"]) (day_posts ++ all_time_posts)
      /\ snd (panda_cache.post_of_the_day
                (panda_cache.Text "https://i.redd.it/a.jpg")
                day_posts all_time_posts)
         = Ok panda_cache.fallback
      /\ length (fst (panda_cache.post_of_the_day
                        (panda_cache.Text "https://i.redd.it/a.jpg")
                        day_posts all_time_posts))
         = S (length (day_posts ++ all_time_posts))).
Proof.
  apply (post_of_the_day_first_fresh
           (panda_cache.Text "https://i.redd.it/a.jpg")
           ["https://i.redd.it/a.jpg"]).
  reflexivity.
Defined.

Example post_of_the_day_skips_two :
  panda_cache.post_of_the_day (panda_cache.Text "https://i.redd.it/a.jpg")
    day_posts all_time_posts
  = ([Log WARNING "Imageless post, skipping";
      Log WARNING "Image already known, skipping"],
     Ok ("https://i.redd.it/b.jpg", "https://reddit.com/r/panda/3")).
Proof. reflexivity. Qed.

(** ** The chat commands *)

Lemma concat_singletons {A B : Type} (f : A -> B) (l : list A) :
  List.concat (map (fun x => [f x]) l) = map f l.
Proof. induction l as [|x l IH]; simpl; auto. now rewrite IH. Qed.

Lemma offered_keyboard action l m h :
  commands.offered
    {| commands.message := m;
       commands.reply_markup := Some (commands.keyboard action l);
       commands.html := h |}
  = map (fun entry => (action ++ " " ++ fst entry)%string) l.
Proof.
  unfold commands.offered, commands.keyboard. simpl.
  rewrite (concat_singletons
             (fun entry =>
                {| commands.text := plugin_long_name (snd entry) (fst entry);
                   commands.callback_data := (action ++ " " ++ fst entry)%string |})).
  now rewrite map_map.
Qed.

Lemma append_cancel (a b c : string) : (a ++ b = a ++ c)%string -> b = c.
Proof. induction a as [|x a IH]; simpl; auto. intros [= H]. auto. Qed.

Lemma offered_filter action (keep : string * plugin -> bool) registered name :
  In (action ++ " " ++ name)%string
     (map (fun entry => (action ++ " " ++ fst entry)%string)
          (filter keep registered))
  <-> exists p, In (name, p) registered /\ keep (name, p) = true.
Proof.
  rewrite in_map_iff. split.
  - intros ([k p] & Heq & Hin). simpl in Heq.
    apply append_cancel in Heq. simpl in Heq. injection Heq as ->.
    apply filter_In in Hin. eauto.
  - intros (p & Hin & Hk). exists (name, p). split; auto.
    apply filter_In. auto.
Qed.

Lemma start_offered self chat f subs :
  subscriptions (commands.id chat) f = Ok subs ->
  exists r, commands.start self chat f = Ok r
    /\ commands.offered r
       = map (fun entry => ("subscribe" ++ " " ++ fst entry)%string)
           (filter (fun entry => negb (contains (fst entry) subs)) (plugins self)).
Proof.
  intros Hsubs. unfold commands.start. rewrite Hsubs. cbn [bind].
  destruct (filter (fun entry => negb (contains (fst entry) subs)) (plugins self))
    as [|e l] eqn:Hf.
  - eexists. split; reflexivity.
  - eexists. split; [reflexivity|]. now rewrite offered_keyboard.
Qed.




Lemma split_button_data action name :
  free_of space action = true -> free_of space name = true ->
  split_on space (action ++ " " ++ name) = [action; name].
Proof.
  intros Ha Hn.
  change (action ++ " " ++ name)%string with (action ++ String space name)%string.
  rewrite split_on_app by assumption. now rewrite split_on_free.
Qed.

Lemma contains_strings name l :
  contains name (VList (map VStr l)) = true <-> In name l.
Proof. simpl. apply existsb_is_str. Qed.

Example press_subscribe_unregistered :
  commands.callback nodup_str kim_bot ann "subscribe late" world1
  = (Ok tt,
     {| store :=
          Doc [("42", VDict [("subscriptions",
                              VList [VStr "panda"; VStr "kjilat"; VStr "late"]);
                             ("name", VStr "Ann None")])];
        secrets := Doc [];
        trace := [SendMessage 42 "Successfully subscribed to ???";
                  Log INFO "Subscribe: Ann None (42) to late"] |}).
Proof. reflexivity. Qed.

Lemma callback_needs_two_parts list_set self chat data w :
  length (split_on space data) <> 2%nat ->
  commands.callback list_set self chat data w = (Raise ValueError, w).
Proof.
  intros H. unfold commands.callback.
  destruct (split_on space data) as [|a [|b [|c rest]]]; simpl in H;
    try reflexivity. congruence.
Qed.

(** X17. [callback] unpacks its data at single spaces into exactly an
    action and a plugin name.  A button made for a plugin whose name has a
    space therefore cannot be pressed: [callback] raises [ValueError]
    without touching the store, sending or logging.  Data with a name
    without space but an action other than [subscribe] and [unsubscribe]
    is ignored without any effect. *)
Theorem callback_on_other_data list_set self chat action name w :
  free_of space action = true ->
  (free_of space name = false ->
   commands.callback list_set self chat (action ++ " " ++ name) w
   = (Raise ValueError, w))
  /\ (free_of space name = true ->
      action <> "subscribe" -> action <> "unsubscribe" ->
      commands.callback list_set self chat (action ++ " " ++ name) w
      = (Ok tt, w)).
Proof.
  intros Ha. split.
  - intros Hn. apply callback_needs_two_parts.
    change (action ++ " " ++ name)%string with (action ++ String space name)%string.
    rewrite split_on_app by assumption. simpl.
    pose proof (split_on_not_free space name Hn). lia.
  - intros Hn H1 H2. unfold commands.callback.
    rewrite split_button_data by assumption.
    apply String.eqb_neq in H1, H2. now rewrite H1, H2.
Qed.

Lemma callback_on_other_data_witness :
  commands.callback nodup_str kim_bot ann ("subscribe" ++ " " ++ "big panda") world1
  = (Raise ValueError, world1)
  /\ commands.callback nodup_str kim_bot ann ("remove" ++ " " ++ "panda") world1
     = (Ok tt, world1).
Proof.
  split.
  - apply (proj1 (callback_on_other_data nodup_str kim_bot ann
                    "subscribe" "big panda" world1 eq_refl)).
    reflexivity.
  - apply (proj2 (callback_on_other_data nodup_str kim_bot ann
                    "remove" "panda" world1 eq_refl)).
    + reflexivity.
    + discriminate.
    + discriminate.
Defined.



(** * The store with its write step *)

(** ** The operations above are these with an exact writer *)

Lemma subscribe_data_link list_set u p n f :
  subscribe list_set u p n f
  = (data <- store.subscribe_data list_set u p n f ;; Ok (Doc data)).
Proof.
  unfold subscribe, store.subscribe_data.
  repeat match goal with
         | |- context [bind ?c _] =>
             lazymatch c with
             | context [bind] => fail
             | _ => destruct c; cbn [bind]; auto
             end
         end.
Qed.

Lemma unsubscribe_data_link u p f :
  unsubscribe u p f
  = (data <- store.unsubscribe_data u p f ;; Ok (Doc data)).
Proof.
  unfold unsubscribe, store.unsubscribe_data.
  repeat match goal with
         | |- context [bind ?c _] =>
             lazymatch c with
             | context [bind] => fail
             | _ => destruct c; cbn [bind]; auto
             end
         end.
Qed.

Lemma store_subscribe_exact list_set u p n f :
  store.subscribe store.exact_writer list_set u p n f
  = subscribe list_set u p n f.
Proof. now rewrite subscribe_data_link. Qed.

Lemma store_unsubscribe_exact u p f :
  store.unsubscribe store.exact_writer u p f = unsubscribe u p f.
Proof. now rewrite unsubscribe_data_link. Qed.

Lemma subscribe_data_ok list_set u p n f data :
  store.subscribe_data list_set u p n f = Ok data <->
  subscribe list_set u p n f = Ok (Doc data).
Proof.
  rewrite subscribe_data_link.
  destruct (store.subscribe_data list_set u p n f); simpl; split;
    congruence.
Qed.

Lemma unsubscribe_data_ok u p f data :
  store.unsubscribe_data u p f = Ok data <->
  unsubscribe u p f = Ok (Doc data).
Proof.
  rewrite unsubscribe_data_link.
  destruct (store.unsubscribe_data u p f); simpl; split; congruence.
Qed.

Lemma subscribe_data_raise list_set u p n f e :
  store.subscribe_data list_set u p n f = Raise e <->
  subscribe list_set u p n f = Raise e.
Proof.
  rewrite subscribe_data_link.
  destruct (store.subscribe_data list_set u p n f); simpl; split;
    congruence.
Qed.

Lemma unsubscribe_data_raise u p f e :
  store.unsubscribe_data u p f = Raise e <->
  unsubscribe u p f = Raise e.
Proof.
  rewrite unsubscribe_data_link.
  destruct (store.unsubscribe_data u p f); simpl; split; congruence.
Qed.

(** The document [subscribe] hands to [toml.dumps], in closed form. *)
Lemma subscribe_data_eq list_set u p n f :
  store.subscribe_data list_set u p n f =
  (d <- load_or_empty f ;;
   t <- table_of (dict_get (str u) d) ;;
   joined <- py_add (old_subs t) [VStr p] ;;
   elems <- hashables joined ;;
   Ok (dict_set (str u)
         (VDict (with_name n
            (dict_set "subscriptions" (VList (map VStr (list_set elems))) t)))
         d)).
Proof.
  destruct (store.subscribe_data list_set u p n f) as [data|e] eqn:H.
  - apply subscribe_data_ok in H. rewrite subscribe_eq in H.
    destruct (load_or_empty f) as [d|e]; simpl in *; [|discriminate].
    destruct (table_of (dict_get (str u) d)) as [t|e]; simpl in *;
      [|discriminate].
    destruct (py_add (old_subs t) [VStr p]) as [joined|e]; simpl in *;
      [|discriminate].
    destruct (hashables joined) as [elems|e]; simpl in *; congruence.
  - apply subscribe_data_raise in H. rewrite subscribe_eq in H.
    destruct (load_or_empty f) as [d|e0]; simpl in *; [|congruence].
    destruct (table_of (dict_get (str u) d)) as [t|e0]; simpl in *;
      [|congruence].
    destruct (py_add (old_subs t) [VStr p]) as [joined|e0]; simpl in *;
      [|congruence].
    destruct (hashables joined) as [elems|e0]; simpl in *; congruence.
Qed.

(** A call that gets as far as its write leaves what the writer makes of
    the document; a call that raises leaves the file alone. *)
Lemma after_subscribe write list_set u p n f :
  after (store.subscribe write list_set u p n) f
  = match store.subscribe_data list_set u p n f with
    | Ok data => match write data with Ok f' => f' | Raise _ => f end
    | Raise _ => f
    end.
Proof.
  unfold after, store.subscribe.
  now destruct (store.subscribe_data list_set u p n f).
Qed.

Lemma after_unsubscribe write u p f :
  after (store.unsubscribe write u p) f
  = match store.unsubscribe_data u p f with
    | Ok data => match write data with Ok f' => f' | Raise _ => f end
    | Raise _ => f
    end.
Proof.
  unfold after, store.unsubscribe.
  now destruct (store.unsubscribe_data u p f).
Qed.

(** No call gets as far as its write on a file that cannot be read. *)
Lemma unparseable_load f :
  store.unparseable f -> exists e, load_or_empty f = Raise e.
Proof. intros [-> | ->]; unfold load_or_empty; simpl; eauto. Qed.

Lemma unparseable_subscribe list_set u p n f :
  store.unparseable f ->
  exists e, store.subscribe_data list_set u p n f = Raise e.
Proof.
  intros H. destruct (unparseable_load f H) as (e & He).
  exists e. now rewrite subscribe_data_eq, He.
Qed.

Lemma unparseable_unsubscribe u p f :
  store.unparseable f ->
  exists e, store.unsubscribe_data u p f = Raise e.
Proof.
  intros H. destruct (unparseable_load f H) as (e & He).
  exists e. apply unsubscribe_data_raise. now rewrite unsubscribe_eq, He.
Qed.

Lemma unparseable_reads f :
  store.unparseable f ->
  (forall u, exists e, subscriptions u f = Raise e)
  /\ (forall q, exists e, subscriber q f = Raise e).
Proof.
  intros [-> | ->]; split; intros; unfold subscriptions, subscriber; simpl;
    eauto.
Qed.

Lemma wf_not_unparseable f : wf_file f -> ~ store.unparseable f.
Proof. intros Hwf [-> | ->]; exact Hwf. Qed.

(** ** The invariant of the files reached *)

Lemma subscribe_data_wf list_set u p n f data :
  set_order list_set -> wf_file f ->
  store.subscribe_data list_set u p n f = Ok data -> wf_doc data.
Proof.
  intros Hord Hwf H. apply subscribe_data_ok in H.
  destruct (subscribe_wf list_set u p n f Hord Hwf) as (d' & Hd' & Hwf').
  congruence.
Qed.

Lemma unsubscribe_data_wf u p f data :
  wf_file f -> store.unsubscribe_data u p f = Ok data -> wf_doc data.
Proof.
  intros Hwf H. apply unsubscribe_data_ok in H.
  pose proof (unsubscribe_wf u p f Hwf) as Hwf'.
  unfold after in Hwf'. now rewrite H in Hwf'.
Qed.

Lemma same_but_name_subscriptions (t t' : dict value) :
  Forall2 (fun a b => fst a = fst b /\ (snd a = snd b \/ fst a = "name")) t t' ->
  dict_get "subscriptions" t' = dict_get "subscriptions" t.
Proof.
  induction 1 as [|[ka va] [kb vb] t t' [Hk Hv] Hall IH]; simpl in *; auto.
  subst kb. destruct (String.eqb ka "subscriptions") eqn:E; auto.
  apply String.eqb_eq in E. subst ka.
  destruct Hv as [->|Hv]; [reflexivity|discriminate].
Qed.

Lemma same_but_name_wf r r' :
  store.same_but_name r r' -> wf_record r -> wf_record r'.
Proof.
  intros [->|(t & t' & -> & -> & Hall)]; auto.
  intros (t0 & l & [= <-] & Hs & Hnd & Hne).
  exists t', l. rewrite (same_but_name_subscriptions _ _ Hall). auto.
Qed.

Lemma names_altered_refl data : store.names_altered data data.
Proof. induction data; constructor; auto. split; auto. now left. Qed.

Lemma names_altered_wf data data' :
  store.names_altered data data' -> wf_doc data -> wf_doc data'.
Proof.
  intros Hall [Hnd Hrec].
  assert (Hkeys : keys data' = keys data).
  { unfold keys. induction Hall as [|x y d d' [Hk _] Hall IH]; simpl; auto.
    inversion Hrec; subst. inversion Hnd; subst.
    f_equal; auto. }
  split; [now rewrite Hkeys|].
  clear Hnd Hkeys.
  induction Hall as [|x y d d' [Hk Hr] Hall IH]; constructor;
    inversion Hrec as [|? ? [Hz Hx] Hrest]; subst; auto.
  split; [now rewrite <- Hk|]. eauto using same_but_name_wf.
Qed.

Lemma exact_renamed write data :
  store.exact write data -> store.renamed write data.
Proof. intros H. exists data. split; auto using names_altered_refl. Qed.

Lemma written_or_lost_renamed write call f :
  store.written_or_lost write call f -> store.renamed_or_lost write call f.
Proof.
  intros H data Hd. destruct (H data Hd); auto using exact_renamed.
Qed.

(** A document that reads back up to the display names answers
    [subscriptions] as the document written. *)
Lemma names_altered_subscriptions data data' u :
  store.names_altered data data' ->
  subscriptions u (Doc data') = subscriptions u (Doc data).
Proof.
  intros Hall. rewrite !subscriptions_eq.
  induction Hall as [|[k r] [k' r'] d d' [Hk Hr] Hall IH]; simpl in *; auto.
  subst k'. destruct (String.eqb k (str u)); auto.
  destruct Hr as [->|(t & t' & -> & -> & Hf)]; auto.
  simpl. now rewrite (same_but_name_subscriptions _ _ Hf).
Qed.

Lemma written_step_wf write data f :
  store.renamed write data \/ store.lost write data ->
  wf_doc data -> wf_file f \/ store.unparseable f ->
  wf_file (match write data with Ok f' => f' | Raise _ => f end)
  \/ store.unparseable (match write data with Ok f' => f' | Raise _ => f end).
Proof.
  intros [(data' & Heq & Hall)|[(e & He)|(f' & Hf' & Hunp)]] Hwf Hf.
  - rewrite Heq. left. simpl. eauto using names_altered_wf.
  - now rewrite He.
  - rewrite Hf'. now right.
Qed.

Lemma reached_wf write f :
  store.reached write f -> wf_file f \/ store.unparseable f.
Proof.
  induction 1 as [|f list_set u p n Hreach IH Hord Hw
                  |f u p Hreach IH Hw]; [now left| |].
  - rewrite after_subscribe.
    destruct (store.subscribe_data list_set u p n f) as [data|e] eqn:Hd;
      [|exact IH].
    apply written_step_wf; auto.
    destruct IH as [Hwf|Hunp]; [eauto using subscribe_data_wf|].
    destruct (unparseable_subscribe list_set u p n f Hunp). congruence.
  - rewrite after_unsubscribe.
    destruct (store.unsubscribe_data u p f) as [data|e] eqn:Hd; [|exact IH].
    apply written_step_wf; auto.
    destruct IH as [Hwf|Hunp]; [eauto using unsubscribe_data_wf|].
    destruct (unparseable_unsubscribe u p f Hunp). congruence.
Qed.

(** With the exact writer every file the operations above produce is
    reached. *)
Lemma reachable_reached f : reachable f -> store.reached store.exact_writer f.
Proof.
  induction 1 as [|f list_set u p n Hreach IH Hord|f u p Hreach IH];
    [constructor| |].
  - replace (after (subscribe list_set u p n) f)
      with (after (store.subscribe store.exact_writer list_set u p n) f)
      by (unfold after; now rewrite store_subscribe_exact).
    constructor; auto. intros data _. left. now apply exact_renamed.
  - replace (after (unsubscribe u p) f)
      with (after (store.unsubscribe store.exact_writer u p) f)
      by (unfold after; now rewrite store_unsubscribe_exact).
    constructor; auto. intros data _. left. now apply exact_renamed.
Qed.

Lemma exact_writer_written call f : store.written store.exact_writer call f.
Proof. intros data _. reflexivity. Qed.

(** The writer [lossy] reads back as written or not at all. *)
Lemma lossy_written_or_lost call f : store.written_or_lost lossy call f.
Proof.
  intros data _. unfold store.exact, store.lost, lossy.
  destruct (forallb _ data); [now left|].
  right. right. exists Corrupt. split; auto. now right.
Qed.


(** ** Partition correctness *)

Lemma partition_wf f u p :
  wf_file f ->
  exists l us,
    subscriptions u f = Ok (VList l)
    /\ subscriber (Some p) f = Ok us
    /\ (In (VStr p) l <-> In u us).
Proof.
  intros Hwf. rewrite subscriptions_eq.
  destruct f as [| | |d]; simpl in Hwf; try tauto.
  - exists [], []. repeat split; auto.
  - destruct (subscriber_wf (Some p) d Hwf) as (us & Heq & Hin).
    destruct (dict_get (str u) d) as [r|] eqn:Hr.
    + destruct (wf_doc_get _ _ _ Hwf Hr) as (_ & t & l & -> & Hs & _ & _).
      exists (map VStr l), us. rewrite py_get_old_subs.
      unfold old_subs. rewrite Hs. repeat split; auto.
      * intros Hp. apply Hin. exists (VDict t). split; auto.
        exists t. split; auto. unfold old_subs. rewrite Hs. simpl.
        apply existsb_is_str. now apply In_VStr_map.
      * intros Hu. apply Hin in Hu as (r & Hr' & t' & Ht' & Hc).
        rewrite Hr in Hr'. injection Hr' as <-. injection Ht' as <-.
        unfold old_subs in Hc. rewrite Hs in Hc. simpl in Hc.
        apply In_VStr_map. now apply existsb_is_str.
    + exists [], us. repeat split; auto.
      * intros [].
      * intros Hu. apply Hin in Hu as (r & Hr' & _). congruence.
Qed.

(** C5. In every file reached through [subscribe] and [unsubscribe],
    whatever the writer made of each document (the text read back as
    written up to the display names, not read back at all, or nothing
    written), a provider [p] is in [subscriptions(u)] exactly when the
    user [u] is in [subscriber(p)].  Both reads return unless the file
    has been left unparseable, and then both raise. *)
Theorem partition_correctness write f u p :
  store.reached write f ->
  ((exists l, subscriptions u f = Ok (VList l) /\ In (VStr p) l)
   <-> (exists us, subscriber (Some p) f = Ok us /\ In u us))
  /\ (~ store.unparseable f ->
      exists l us, subscriptions u f = Ok (VList l)
                   /\ subscriber (Some p) f = Ok us)
  /\ (store.unparseable f ->
      exists e, subscriptions u f = Raise e
                /\ subscriber (Some p) f = Raise e).
Proof.
  intros Hreach. apply reached_wf in Hreach.
  assert (Hraise : store.unparseable f ->
                   exists e, subscriptions u f = Raise e
                             /\ subscriber (Some p) f = Raise e).
  { intros [-> | ->]; eexists; split; reflexivity. }
  destruct Hreach as [Hwf|Hunp].
  - destruct (partition_wf f u p Hwf) as (l & us & Hs & Hq & Hiff).
    split; [|split]; auto.
    + rewrite Hs, Hq. split.
      * intros (l' & [= <-] & Hin). exists us. split; auto. now apply Hiff.
      * intros (us' & [= <-] & Hin). exists l. split; auto. now apply Hiff.
    + intros _. eauto.
  - destruct (Hraise Hunp) as (e & Hs & Hq).
    split; [|split]; auto.
    + rewrite Hs, Hq. split; intros (x & Hx & _); discriminate.
    + tauto.
Qed.

Lemma partition_correctness_witness :
  ((exists l,
      subscriptions 42
        (after (store.subscribe lossy nodup_str 42 "panda" (Some "Ann")) Missing)
      = Ok (VList l) /\ In (VStr "panda") l)
   <-> (exists us,
          subscriber (Some "panda")
            (after (store.subscribe lossy nodup_str 42 "panda" (Some "Ann"))
               Missing)
          = Ok us /\ In 42 us))
  /\ (exists l us,
        subscriptions 42
          (after (store.subscribe lossy nodup_str 42 "panda" (Some "Ann"))
             Missing)
        = Ok (VList l)
        /\ subscriber (Some "panda")
             (after (store.subscribe lossy nodup_str 42 "panda" (Some "Ann"))
                Missing)
           = Ok us).
Proof.
  destruct (partition_correctness lossy
              (after (store.subscribe lossy nodup_str 42 "panda" (Some "Ann"))
                 Missing) 42 "panda") as (Hiff & Hreturn & _).
  - apply store.reached_subscribe.
    + apply store.reached_init.
    + apply nodup_str_order.
    + apply written_or_lost_renamed, lossy_written_or_lost.
  - split; [exact Hiff|]. apply Hreturn.
    intros [H|H]; vm_compute in H; discriminate H.
Defined.

(** A display name with a backslash in it: the lossy writer leaves a file
    that no read can parse, and the file is reached all the same. *)
Example subscribe_leaves_unparseable_file :
  store.subscribe lossy nodup_str 42 "panda" (Some "C:\xampp Smith") Missing
  = Ok Corrupt
  /\ subscriptions 42 Corrupt = Raise TomlDecodeError
  /\ subscriber (Some "panda") Corrupt = Raise TomlDecodeError
  /\ store.subscribe lossy nodup_str 42 "panda" (Some "C:\xampp Smith") Corrupt
     = Raise TomlDecodeError.
Proof. repeat split; reflexivity. Qed.


(** ** No duplicates after [subscribe] *)

(** The list [subscribe] hands to the writer for [u]. *)
Lemma subscribe_data_list list_set u p n f l0 :
  set_order list_set ->
  subscriptions u f = Ok (VList (map VStr l0)) ->
  exists data,
    store.subscribe_data list_set u p n f = Ok data
    /\ subscriptions u (Doc data)
       = Ok (VList (map VStr (list_set (l0 ++ [p]))))
    /\ record_of u (Doc data)
       = Some (VDict (with_name n
                 (dict_set "subscriptions"
                    (VList (map VStr (list_set (l0 ++ [p]))))
                    match record_of u f with
                    | Some (VDict t) => t
                    | _ => []
                    end))).
Proof.
  intros Hord Hsubs.
  destruct (subscriptions_strings u f l0 Hsubs) as (d & t & Hd & Ht & Ho).
  rewrite subscribe_data_eq, Hd. simpl. rewrite Ht. simpl. rewrite Ho. simpl.
  change [VStr p] with (map VStr [p]). rewrite <- map_app, hashables_map.
  simpl. eexists. split; [reflexivity|]. split.
  - rewrite subscriptions_eq, dict_get_set_eq, py_get_old_subs.
    unfold old_subs. now rewrite get_subs_with_name.
  - rewrite (record_of_load f d u Hd). unfold record_of.
    rewrite dict_get_set_eq.
    destruct (dict_get (str u) d) as [[s|l|t']|]; simpl in Ht;
      try discriminate; now injection Ht as <-.
Qed.




(** ** The records of the other users *)

Lemma subscribe_data_frame list_set u v p n f data :
  v <> u ->
  store.subscribe_data list_set u p n f = Ok data ->
  dict_get (str v) data = record_of v f.
Proof.
  intros Hne. apply str_neq in Hne. rewrite subscribe_data_eq.
  destruct (load_or_empty f) as [d|e] eqn:Hd; simpl; [|discriminate].
  rewrite (record_of_load f d v Hd).
  destruct (table_of (dict_get (str u) d)) as [t|e]; simpl; [|discriminate].
  destruct (py_add (old_subs t) [VStr p]) as [joined|e]; simpl;
    [|discriminate].
  destruct (hashables joined) as [elems|e]; simpl; [|discriminate].
  intros [= <-]. now apply dict_get_set_neq.
Qed.

Lemma unsubscribe_data_frame u v p f data :
  v <> u ->
  store.unsubscribe_data u p f = Ok data ->
  dict_get (str v) data = record_of v f.
Proof.
  intros Hne H. apply str_neq in Hne. apply unsubscribe_data_ok in H.
  rewrite unsubscribe_eq in H.
  destruct (load_or_empty f) as [d|e] eqn:Hd; simpl in H; [|discriminate].
  rewrite (record_of_load f d v Hd).
  destruct (dict_get (str u) d) as [[s|l|t]|]; try discriminate.
  destruct (contains p (old_subs t)).
  - destruct (old_subs t) as [s|l|t0]; try discriminate.
    destruct (list_remove p l) as [l'|e]; simpl in H; [|discriminate].
    injection H as <-. destruct l'; simpl.
    + now apply dict_get_del_neq.
    + now apply dict_get_set_neq.
  - injection H as <-. destruct (falsy (old_subs t)); auto.
    now apply dict_get_del_neq.
Qed.

(** C9. [subscribe(u, p, name)] and [unsubscribe(u, p)] hand the record of
    every other user [v] to the writer exactly as they read it.  What is
    stored for [v] afterwards is what the writer makes of the whole
    document: the record of [v] as it was when the text reads back as
    written or the writer raises, and when the call raises before its
    write.  Nothing in the two operations makes a writer read back what
    it wrote. *)
Theorem edit_hands_other_records_to_writer write list_set u v p n f :
  v <> u ->
  (forall data, store.subscribe_data list_set u p n f = Ok data ->
                dict_get (str v) data = record_of v f
                /\ store.subscribe write list_set u p n f = write data)
  /\ (forall data, store.unsubscribe_data u p f = Ok data ->
                   dict_get (str v) data = record_of v f
                   /\ store.unsubscribe write u p f = write data)
  /\ (store.written_or_refused write (store.subscribe_data list_set u p n) f ->
      record_of v (after (store.subscribe write list_set u p n) f)
      = record_of v f)
  /\ (store.written_or_refused write (store.unsubscribe_data u p) f ->
      record_of v (after (store.unsubscribe write u p) f) = record_of v f).
Proof.
  intros Hne. split; [|split; [|split]].
  - intros data Hd. split; [eauto using subscribe_data_frame|].
    unfold store.subscribe. now rewrite Hd.
  - intros data Hd. split; [eauto using unsubscribe_data_frame|].
    unfold store.unsubscribe. now rewrite Hd.
  - intros Hw. rewrite after_subscribe.
    destruct (store.subscribe_data list_set u p n f) as [data|e] eqn:Hd; auto.
    destruct (Hw data Hd) as [Hex|(e & He)].
    + rewrite Hex. simpl. eauto using subscribe_data_frame.
    + now rewrite He.
  - intros Hw. rewrite after_unsubscribe.
    destruct (store.unsubscribe_data u p f) as [data|e] eqn:Hd; auto.
    destruct (Hw data Hd) as [Hex|(e & He)].
    + rewrite Hex. simpl. eauto using unsubscribe_data_frame.
    + now rewrite He.
Qed.

Lemma edit_hands_other_records_to_writer_witness :
  (forall data,
     store.subscribe_data nodup_str 42 "panda" (Some "C:\xampp Smith") bo_store
     = Ok data ->
     dict_get (str 7) data = record_of 7 bo_store
     /\ store.subscribe lossy nodup_str 42 "panda" (Some "C:\xampp Smith")
          bo_store
        = lossy data)
  /\ record_of 7
       (after (store.subscribe lossy nodup_str 42 "panda" (Some "Ann")) bo_store)
     = record_of 7 bo_store
  /\ record_of 7 (after (store.unsubscribe lossy 42 "panda") example_store)
     = record_of 7 example_store.
Proof.
  assert (Hne : 7 <> 42) by lia.
  split; [|split].
  - exact (proj1 (edit_hands_other_records_to_writer lossy nodup_str 42 7
                    "panda" (Some "C:\xampp Smith") bo_store Hne)).
  - apply (proj1 (proj2 (proj2 (edit_hands_other_records_to_writer lossy
                                  nodup_str 42 7 "panda" (Some "Ann")
                                  bo_store Hne)))).
    intros data H. vm_compute in H. injection H as <-. left. reflexivity.
  - apply (proj2 (proj2 (proj2 (edit_hands_other_records_to_writer lossy
                                  nodup_str 42 7 "panda" None
                                  example_store Hne)))).
    intros data H. vm_compute in H. injection H as <-. left. reflexivity.
Defined.

(** With a writer that does not read back a display name with a backslash
    in it, subscribing user 42 under such a name loses the record of
    user 7. *)
Example edit_loses_other_record :
  store.subscribe_data nodup_str 42 "panda" (Some "C:\xampp Smith") bo_store
  = Ok [("7", VDict [("subscriptions", VList [VStr "kjilat"]);
                     ("name", VStr "Bo")]);
        ("42", VDict [("subscriptions", VList [VStr "panda"]);
                      ("name", VStr "C:\xampp Smith")])]
  /\ store.subscribe lossy nodup_str 42 "panda" (Some "C:\xampp Smith") bo_store
     = Ok Corrupt
  /\ subscriptions 7 bo_store = Ok (VList [VStr "kjilat"])
  /\ subscriptions 7
       (after (store.subscribe lossy nodup_str 42 "panda"
                 (Some "C:\xampp Smith")) bo_store)
     = Raise TomlDecodeError
  /\ record_of 7
       (after (store.subscribe lossy nodup_str 42 "panda"
                 (Some "C:\xampp Smith")) bo_store)
     = None.
Proof. repeat split; reflexivity. Qed.


(** ** Subscribing twice, with the write step *)










(** The same two calls under a display name the lossy writer does not read
    back: the first leaves a file that cannot be read, the second raises
    and leaves it as it is. *)
Example subscribe_twice_unparseable :
  after (store.subscribe lossy nodup_str 42 "late" (Some "C:\xampp Smith"))
    example_store = Corrupt
  /\ store.subscribe lossy rev_nodup_str 42 "late" (Some "C:\xampp Smith")
       Corrupt = Raise TomlDecodeError
  /\ after (store.subscribe lossy rev_nodup_str 42 "late"
              (Some "C:\xampp Smith")) Corrupt = Corrupt.
Proof. repeat split; reflexivity. Qed.


(** * Further properties, with the write step *)

Lemma schedule_first_bad before name p rest job_queue :
  Forall (fun entry => time_ok (snd entry)) before ->
  ~ time_ok p ->
  schedule_plugin_messages (before ++ (name, p) :: rest) job_queue
  = Raise (time_error p).
Proof.
  intros Hall Hbad. revert job_queue.
  induction Hall as [|[name' p'] before Hp Hall IH]; intros job_queue; simpl.
  - destruct (datetime_time_spec (plugin_hour p) (plugin_minute p))
      as [_ Hraise].
    now rewrite (Hraise Hbad).
  - apply datetime_time_ok in Hp. simpl in Hp. rewrite Hp. simpl. apply IH.
Qed.

(** X3. [schedule_plugin_messages] returns exactly when every plugin of
    the map has its hour in 0..23 and its minute in 0..59; it then adds to
    the queue one job per plugin, in the order of the map, carrying the
    plugin's name, hour and minute and second 0.  Otherwise the call
    raises what [datetime.time] raises for the first plugin whose time is
    out of range: [ValueError] when hour and minute fit a C [int],
    [OverflowError] when one does not. *)
Theorem schedule_one_job_per_plugin registered job_queue :
  (Forall (fun entry => time_ok (snd entry)) registered ->
   schedule_plugin_messages registered job_queue
   = Ok (job_queue ++ map job_of registered))
  /\ (forall jobs,
        schedule_plugin_messages registered job_queue = Ok jobs ->
        Forall (fun entry => time_ok (snd entry)) registered
        /\ jobs = job_queue ++ map job_of registered)
  /\ (forall before name p rest,
        registered = before ++ (name, p) :: rest ->
        Forall (fun entry => time_ok (snd entry)) before ->
        ~ time_ok p ->
        schedule_plugin_messages registered job_queue
        = Raise (if c_int (plugin_hour p) && c_int (plugin_minute p)
                 then ValueError else OverflowError)).
Proof.
  destruct (schedule_exact registered job_queue) as [Hok Hinv].
  split; [exact Hok|]. split; [exact Hinv|].
  intros before name p rest -> Hall Hbad.
  now apply schedule_first_bad.
Qed.

Lemma schedule_one_job_per_plugin_witness :
  schedule_plugin_messages [("panda", panda_plugin)] []
  = Ok ([] ++ map job_of [("panda", panda_plugin)])
  /\ schedule_plugin_messages
       [("panda", panda_plugin); ("far", far_plugin); ("late", late_plugin)] []
     = Raise OverflowError.
Proof.
  split.
  - apply (schedule_one_job_per_plugin [("panda", panda_plugin)] []).
    constructor; [|constructor].
    cbv [time_ok plugin_hour plugin_minute snd panda_plugin HOUR MINUTE getattr].
    lia.
  - apply (proj2 (proj2 (schedule_one_job_per_plugin
                           [("panda", panda_plugin); ("far", far_plugin);
                            ("late", late_plugin)] []))
             [("panda", panda_plugin)] "far" far_plugin
             [("late", late_plugin)]).
    + reflexivity.
    + constructor; [|constructor].
      cbv [time_ok plugin_hour plugin_minute snd panda_plugin HOUR MINUTE
           getattr].
      lia.
    + cbv [time_ok plugin_hour plugin_minute far_plugin HOUR MINUTE getattr].
      lia.
Defined.

(** An hour that fits a C [int] and is out of range gives [ValueError]. *)
Example schedule_hour_24 :
  schedule_plugin_messages
    [("odd", {| HOUR := Some 24; MINUTE := Some 0; NAME := None;
                run := None |})] []
  = Raise ValueError.
Proof. reflexivity. Qed.


(** A read that returns shows the file is not one left unparseable. *)
Lemma reached_read_wf write f u v :
  store.reached write f -> subscriptions u f = Ok v -> wf_file f.
Proof.
  intros Hreach Hs. destruct (reached_wf write f Hreach) as [Hwf|Hunp]; auto.
  destruct (proj1 (unparseable_reads f Hunp) u). congruence.
Qed.

(** X5. In a file reached through [subscribe] and [unsubscribe],
    [subscriber] lists no user twice, for every plugin name and for no
    name: a firing or an announcement sends each user at most one message.
    It returns unless a write has left the file unparseable, and raises
    then. *)
Theorem subscriber_lists_each_user_once write f q :
  store.reached write f ->
  (~ store.unparseable f -> exists us, subscriber q f = Ok us /\ NoDup us)
  /\ (store.unparseable f -> exists e, subscriber q f = Raise e)
  /\ (forall us, subscriber q f = Ok us -> NoDup us).
Proof.
  intros Hreach.
  assert (Hwf : wf_file f -> exists us, subscriber q f = Ok us /\ NoDup us).
  { intros Hwf. destruct f as [| | |d]; simpl in Hwf; try tauto.
    - exists []. split; auto using NoDup_nil.
    - destruct Hwf as [Hnd Hall].
      destruct (subscriber_loop_NoDup q d Hall Hnd) as (us & Heq & Hus & _).
      exists us. split; auto. }
  destruct (reached_wf write f Hreach) as [H|H].
  - destruct (Hwf H) as (us & Hq & Hnd). split; [|split].
    + eauto.
    + intros Hunp. now destruct (wf_not_unparseable f H).
    + intros us' Hq'. congruence.
  - destruct (proj2 (unparseable_reads f H) q) as (e & He). split; [|split].
    + tauto.
    + eauto.
    + intros us Hq. congruence.
Qed.

Lemma subscriber_lists_each_user_once_witness :
  exists us,
    subscriber None
      (after (store.subscribe lossy nodup_str 42 "panda" None) Missing)
    = Ok us /\ NoDup us.
Proof.
  apply (subscriber_lists_each_user_once lossy
           (after (store.subscribe lossy nodup_str 42 "panda" None) Missing)
           None).
  - apply store.reached_subscribe.
    + apply store.reached_init.
    + apply nodup_str_order.
    + apply written_or_lost_renamed, lossy_written_or_lost.
  - intros [H|H]; vm_compute in H; discriminate H.
Defined.

(** X7. In a file reached through [subscribe] and [unsubscribe], when the
    user does not have the provider and both writes read back as written,
    [subscribe] followed by [unsubscribe] of the same provider both return
    and give the user back the providers held before, no more and no
    less. *)
Theorem subscribe_then_unsubscribe_restores write list_set f u p n l :
  store.reached write f -> set_order list_set ->
  subscriptions u f = Ok (VList l) ->
  ~ In (VStr p) l ->
  store.written write (store.subscribe_data list_set u p n) f ->
  store.written write (store.unsubscribe_data u p)
    (after (store.subscribe write list_set u p n) f) ->
  exists f1 f2 l2,
    store.subscribe write list_set u p n f = Ok f1
    /\ store.unsubscribe write u p f1 = Ok f2
    /\ subscriptions u f2 = Ok (VList l2)
    /\ forall x, In x l2 <-> In x l.
Proof.
  intros Hreach Hord Hsubs Hp Hw1 Hw2.
  pose proof (reached_read_wf write f u _ Hreach Hsubs) as Hwf.
  destruct (subscriptions_wf f u Hwf) as (l0 & Hl0).
  rewrite Hl0 in Hsubs. injection Hsubs as <-.
  destruct (subscribe_result_list list_set u p n f l0 Hord Hl0)
    as (f1 & l1 & Hsub & Hget1 & Hin1).
  destruct (subscribe_wf list_set u p n f Hord Hwf) as (d1 & Hd1 & Hwf1).
  rewrite Hd1 in Hsub. injection Hsub as <-.
  apply subscribe_data_ok in Hd1.
  pose proof (Hw1 d1 Hd1) as Hex1. unfold store.exact in Hex1.
  rewrite after_subscribe, Hd1, Hex1 in Hw2.
  destruct (unsubscribe_exact_wf (Doc d1) u p (map VStr l1) Hwf1 Hget1)
    as (f2 & l2 & Hun & Hget2 & Hin2).
  { apply In_VStr_map, Hin1. auto. }
  rewrite unsubscribe_data_link in Hun.
  destruct (store.unsubscribe_data u p (Doc d1)) as [d2|e] eqn:Hd2;
    simpl in Hun; [|discriminate].
  injection Hun as <-.
  pose proof (Hw2 d2 Hd2) as Hex2. unfold store.exact in Hex2.
  exists (Doc d1), (Doc d2), l2. split; [|split; [|split]]; auto.
  - unfold store.subscribe. now rewrite Hd1.
  - unfold store.unsubscribe. now rewrite Hd2.
  - intros x. split.
    + intros Hx. apply Hin2 in Hx as [Hx Hne].
      apply in_map_iff in Hx as (s & <- & Hs). apply In_VStr_map.
      apply Hin1 in Hs as [Hs| ->]; [exact Hs | congruence].
    + intros Hx. apply Hin2. split.
      * apply in_map_iff in Hx as (s & <- & Hs).
        apply In_VStr_map, Hin1. auto.
      * intros ->. contradiction.
Qed.

Lemma example_store_is_reached :
  store.reached store.exact_writer example_store_reached.
Proof.
  apply reachable_reached.
  apply reach_subscribe; [|apply nodup_str_order].
  apply reach_subscribe; [apply reach_init | apply nodup_str_order].
Qed.

Lemma subscribe_then_unsubscribe_restores_witness :
  exists f1 f2 l2,
    store.subscribe store.exact_writer rev_nodup_str 42 "late" None
      example_store_reached = Ok f1
    /\ store.unsubscribe store.exact_writer 42 "late" f1 = Ok f2
    /\ subscriptions 42 f2 = Ok (VList l2)
    /\ forall x, In x l2 <-> In x [VStr "panda"; VStr "kjilat"].
Proof.
  apply (subscribe_then_unsubscribe_restores store.exact_writer rev_nodup_str
           example_store_reached 42 "late" None).
  - apply example_store_is_reached.
  - apply rev_nodup_str_order.
  - reflexivity.
  - simpl. intros [H|[H|[]]]; discriminate H.
  - apply exact_writer_written.
  - apply exact_writer_written.
Defined.


(** ** Firing and announcing on a file reached *)

Lemma firing_wf self plugin_name p image w config :
  dict_get plugin_name (plugins self) = Some p ->
  run p = Some (kjilat.run (Ok image)) ->
  wf_file (store w) ->
  load (secrets w) = Ok config ->
  exists ids,
    run_plugin_named self plugin_name w
    = (Ok tt,
       add_trace w
         ([QueryStore (Some plugin_name);
           Log INFO ("Running: " ++ plugin_name ++ " for "
                     ++ str (Z.of_nat (length ids)) ++ " subscriber[s]")%string;
           ReadSecrets; Invoke plugin_name ids]
          ++ flat_map
               (turn (fun chat_id =>
                        SendPhoto chat_id (kjilat.url image) (kjilat.title image))
                     (fun chat_id =>
                        send_photo (updater_bot self) chat_id
                          (kjilat.url image) (kjilat.title image)))
               ids))
    /\ NoDup ids
    /\ forall u, In u ids <->
         exists l, subscriptions u (store w) = Ok (VList l)
                   /\ In (VStr plugin_name) l.
Proof.
  intros Hp Hf Hwf Hconfig.
  rewrite (run_plugin_named_found self plugin_name p _ w Hp Hf), Hconfig.
  destruct (store w) as [| | |d] eqn:Hstore; simpl in Hwf; try tauto.
  - exists []. cbn [subscriber exists_ negb]. split; [|split].
    + unfold kjilat.run, bindM, lift. cbn [flat_map app length].
      reflexivity.
    + constructor.
    + intros u. rewrite subscriptions_eq. split; [intros [] |].
      intros (l & [= <-] & []).
  - destruct Hwf as [Hnd Hall].
    destruct (subscriber_loop_NoDup (Some plugin_name) d Hall Hnd)
      as (ids & Heq & Hids & _).
    destruct (subscriber_loop_wf (Some plugin_name) d Hall)
      as (ids' & Heq' & Hin).
    rewrite Heq in Heq'. injection Heq' as <-.
    exists ids. unfold subscriber. cbn [exists_ negb load bind]. rewrite Heq.
    split; [|split; auto].
    + unfold kjilat.run, bindM, lift.
      rewrite (for_each_guarded
                 (fun chat_id =>
                    SendPhoto chat_id (kjilat.url image) (kjilat.title image))
                 (fun chat_id =>
                    send_photo (updater_bot self) chat_id
                      (kjilat.url image) (kjilat.title image))).
      now rewrite add_trace_app.
    + intros u. rewrite Hin.
      destruct (subscriptions_wf_doc d u (conj Hnd Hall))
        as [[Hnone Hempty]|(t & l & Hu & Hs & _ & _ & Hl)].
      * rewrite Hempty. split.
        -- intros (r & Hr & _). apply In_dict_get in Hr; auto. congruence.
        -- intros (l & [= <-] & []).
      * rewrite Hl. split.
        -- intros (r & Hr & t' & -> & Hc).
           apply In_dict_get in Hr; auto. rewrite Hu in Hr.
           injection Hr as <-. exists (map VStr l). split; auto.
           unfold old_subs in Hc. rewrite Hs in Hc.
           apply In_VStr_map. now apply existsb_is_str.
        -- intros (l' & [= <-] & Hp').
           exists (VDict t). split; [now apply dict_get_In|].
           exists t. split; auto. unfold old_subs. rewrite Hs.
           apply existsb_is_str. now apply In_VStr_map.
Qed.

(** X9. Firing a registered plugin whose [run] is the delivery loop of
    [kjilat], with readable secrets, on a file reached through [subscribe]
    and [unsubscribe]: unless a write has left the file unparseable, the
    firing returns without raising; the photo is sent, once each, to
    exactly the users whose subscription list holds the plugin's name, and
    a send that fails is followed by its error line.  On a file left
    unparseable the firing raises after the store query and nothing is
    sent. *)
Theorem firing_serves_exactly_the_subscribers
    write self plugin_name p image w config :
  dict_get plugin_name (plugins self) = Some p ->
  run p = Some (kjilat.run (Ok image)) ->
  store.reached write (store w) ->
  load (secrets w) = Ok config ->
  (~ store.unparseable (store w) ->
   exists ids,
     run_plugin_named self plugin_name w
     = (Ok tt,
        add_trace w
          ([QueryStore (Some plugin_name);
            Log INFO ("Running: " ++ plugin_name ++ " for "
                      ++ str (Z.of_nat (length ids)) ++ " subscriber[s]")%string;
            ReadSecrets; Invoke plugin_name ids]
           ++ flat_map
                (turn (fun chat_id =>
                         SendPhoto chat_id (kjilat.url image) (kjilat.title image))
                      (fun chat_id =>
                         send_photo (updater_bot self) chat_id
                           (kjilat.url image) (kjilat.title image)))
                ids))
     /\ NoDup ids
     /\ forall u, In u ids <->
          exists l, subscriptions u (store w) = Ok (VList l)
                    /\ In (VStr plugin_name) l)
  /\ (store.unparseable (store w) ->
      exists e,
        run_plugin_named self plugin_name w
        = (Raise e, add_trace w [QueryStore (Some plugin_name)])).
Proof.
  intros Hp Hf Hreach Hconfig. split.
  - intros Hparse.
    destruct (reached_wf write _ Hreach) as [Hwf|Hunp]; [|tauto].
    eauto using firing_wf.
  - intros Hunp.
    destruct (proj2 (unparseable_reads _ Hunp) (Some plugin_name)) as (e & He).
    exists e.
    now rewrite (run_plugin_named_found self plugin_name p _ w Hp Hf), He.
Qed.

Lemma firing_serves_exactly_the_subscribers_witness :
  exists ids,
    run_plugin_named kim_bot "kjilat" world1
    = (Ok tt,
       add_trace world1
         ([QueryStore (Some "kjilat");
           Log INFO ("Running: " ++ "kjilat" ++ " for "
                     ++ str (Z.of_nat (length ids)) ++ " subscriber[s]")%string;
           ReadSecrets; Invoke "kjilat" ids]
          ++ flat_map
               (turn (fun chat_id =>
                        SendPhoto chat_id (kjilat.url kim) (kjilat.title kim))
                     (fun chat_id =>
                        send_photo (updater_bot kim_bot) chat_id
                          (kjilat.url kim) (kjilat.title kim)))
               ids))
    /\ NoDup ids
    /\ forall u, In u ids <->
         exists l, subscriptions u (store world1) = Ok (VList l)
                   /\ In (VStr "kjilat") l.
Proof.
  apply (firing_serves_exactly_the_subscribers store.exact_writer kim_bot
           "kjilat" kim_plugin kim world1 []).
  - reflexivity.
  - reflexivity.
  - apply example_store_is_reached.
  - reflexivity.
  - intros [H|H]; vm_compute in H; discriminate H.
Defined.

Lemma psa_wf self message w :
  wf_file (store w) ->
  exists chat_ids,
    psa self message w
    = (Ok tt,
       add_trace w
         ([QueryStore None;
           Log INFO ("PSAing " ++ str (Z.of_nat (length chat_ids))
                     ++ " people.")%string]
          ++ flat_map
               (turn (fun chat_id => SendMessage chat_id message)
                     (fun chat_id =>
                        send_message (updater_bot self) chat_id message))
               chat_ids))
    /\ NoDup chat_ids
    /\ forall u, In u chat_ids <-> record_of u (store w) <> None.
Proof.
  intros Hwf.
  assert (Hids : exists chat_ids,
             subscriber None (store w) = Ok chat_ids /\ NoDup chat_ids
             /\ forall u, In u chat_ids <-> record_of u (store w) <> None).
  { destruct (store w) as [| | |d]; simpl in Hwf; try tauto.
    - exists []. split; auto. split; [constructor|].
      intros u. simpl. tauto.
    - destruct Hwf as [Hnd Hall].
      destruct (subscriber_loop_NoDup None d Hall Hnd) as (ids & Heq & Hids & _).
      destruct (subscriber_wf None d (conj Hnd Hall)) as (ids' & Heq' & Hin).
      unfold subscriber in Heq'. simpl in Heq'. rewrite Heq in Heq'.
      injection Heq' as <-.
      exists ids. split; [exact Heq|]. split; auto.
      intros u. rewrite Hin. simpl. split.
      + intros (r & Hr & _). congruence.
      + intros Hu. destruct (dict_get (str u) d) as [r|]; [|congruence].
        exists r. split; auto. }
  destruct Hids as (chat_ids & Hsub & Hnd & Hin).
  exists chat_ids. split; [|split; auto].
  unfold psa, bindM, call_subscriber, logging_info, emit. simpl.
  rewrite Hsub.
  rewrite (for_each_guarded (fun chat_id => SendMessage chat_id message)
             (fun chat_id => send_message (updater_bot self) chat_id message)).
  now rewrite !add_trace_app.
Qed.

(** X19. On a file reached through [subscribe] and [unsubscribe], unless a
    write has left it unparseable, [psa] returns without raising and
    attempts one message, and only one, for every user that has a record
    in the store, and for nobody else.  On a file left unparseable [psa]
    raises after the store query and nothing is sent. *)
Theorem psa_reaches_each_user_once write self message w :
  store.reached write (store w) ->
  (~ store.unparseable (store w) ->
   exists chat_ids,
     psa self message w
     = (Ok tt,
        add_trace w
          ([QueryStore None;
            Log INFO ("PSAing " ++ str (Z.of_nat (length chat_ids))
                      ++ " people.")%string]
           ++ flat_map
                (turn (fun chat_id => SendMessage chat_id message)
                      (fun chat_id =>
                         send_message (updater_bot self) chat_id message))
                chat_ids))
     /\ NoDup chat_ids
     /\ forall u, In u chat_ids <-> record_of u (store w) <> None)
  /\ (store.unparseable (store w) ->
      exists e, psa self message w = (Raise e, add_trace w [QueryStore None])).
Proof.
  intros Hreach. split.
  - intros Hparse.
    destruct (reached_wf write _ Hreach) as [Hwf|Hunp]; [|tauto].
    now apply psa_wf.
  - intros Hunp.
    destruct (proj2 (unparseable_reads _ Hunp) None) as (e & He).
    exists e. unfold psa, bindM, call_subscriber, emit. simpl.
    now rewrite He.
Qed.

Lemma psa_reaches_each_user_once_witness :
  exists chat_ids,
    psa kim_bot "hello" world1
    = (Ok tt,
       add_trace world1
         ([QueryStore None;
           Log INFO ("PSAing " ++ str (Z.of_nat (length chat_ids))
                     ++ " people.")%string]
          ++ flat_map
               (turn (fun chat_id => SendMessage chat_id "hello")
                     (fun chat_id =>
                        send_message (updater_bot kim_bot) chat_id "hello"))
               chat_ids))
    /\ NoDup chat_ids
    /\ forall u, In u chat_ids <-> record_of u (store world1) <> None.
Proof.
  apply (psa_reaches_each_user_once store.exact_writer kim_bot "hello" world1).
  - apply example_store_is_reached.
  - intros [H|H]; vm_compute in H; discriminate H.
Defined.


(** ** The image cache *)

(** X13. [cache(entry)] for a non-empty entry without a line feed and
    without a carriage return, on a cache file that can be read, writes a
    file from which [get_cache] reads back the previous entries followed
    by the new one, cut to the most recent 32: the new entry is the last
    one and the cache never holds more than [POST_CACHE_COUNT] entries. *)
Theorem cache_keeps_most_recent entry f old :
  panda_cache.get_cache f = Ok old ->
  free_of newline entry = true ->
  free_of panda_cache.carriage_return entry = true ->
  entry <> EmptyString ->
  exists f' front,
    panda_cache.cache entry f = Ok f'
    /\ panda_cache.get_cache f' = Ok (front ++ [entry])
    /\ front ++ [entry]
       = panda_cache.last_n panda_cache.POST_CACHE_COUNT (old ++ [entry])
    /\ (length (front ++ [entry]) <= panda_cache.POST_CACHE_COUNT)%nat.
Proof.
  intros Hold Hfree Hcr Hne.
  destruct (last_n_snoc panda_cache.POST_CACHE_COUNT old entry)
    as (front & Hfront & Hlen).
  { unfold panda_cache.POST_CACHE_COUNT. lia. }
  unfold panda_cache.cache. rewrite Hold. cbn [bind].
  eexists _, front. split; [reflexivity|]. split; [|split; auto].
  rewrite get_cache_concat; [now rewrite Hfront|].
  apply Forall_last_n, Forall_app. split.
  - now apply get_cache_entries with (f := f).
  - constructor; [|constructor]. repeat split; auto. now destruct entry.
Qed.

Lemma cache_keeps_most_recent_witness :
  exists f' front,
    panda_cache.cache "https://i.redd.it/b.jpg"
      (panda_cache.Text (String.concat nl ["https://i.redd.it/a.jpg"; EmptyString]))
    = Ok f'
    /\ panda_cache.get_cache f' = Ok (front ++ ["https://i.redd.it/b.jpg"])
    /\ front ++ ["https://i.redd.it/b.jpg"]
       = panda_cache.last_n panda_cache.POST_CACHE_COUNT
           (["https://i.redd.it/a.jpg"] ++ ["https://i.redd.it/b.jpg"])
    /\ (length (front ++ ["https://i.redd.it/b.jpg"])
        <= panda_cache.POST_CACHE_COUNT)%nat.
Proof.
  apply (cache_keeps_most_recent "https://i.redd.it/b.jpg"
           (panda_cache.Text
              (String.concat nl ["https://i.redd.it/a.jpg"; EmptyString]))
           ["https://i.redd.it/a.jpg"]).
  - reflexivity.
  - reflexivity.
  - reflexivity.
  - discriminate.
Defined.

(** An entry with a carriage return in it is read back as two entries. *)
Example cache_entry_with_carriage_return :
  (f' <- panda_cache.cache
           (String "a" (String panda_cache.carriage_return "b"))
           panda_cache.NoFile ;;
   panda_cache.get_cache f')
  = Ok ["a"; "b"].
Proof. reflexivity. Qed.


(** ** The subscribe button, with the write step *)

(** With the exact writer, [store.callback] is [commands.callback]. *)
Lemma callback_exact list_set self chat data w :
  store.callback store.exact_writer list_set self chat data w
  = commands.callback list_set self chat data w.
Proof.
  unfold store.callback, commands.callback.
  destruct (split_on space data) as [|action [|plugin [|x rest]]]; auto.
  destruct (String.eqb action "subscribe").
  - unfold bindM, commands.update_store.
    now rewrite store_subscribe_exact.
  - destruct (String.eqb action "unsubscribe"); auto.
    unfold bindM, commands.update_store.
    now rewrite store_unsubscribe_exact.
Qed.

(** X16. Pressing a subscribe button whose plugin name has no space, on a
    file reached through [subscribe] and [unsubscribe] that can be read:
    [subscribe] hands the writer a document in which the user has the
    plugin, and does so before the confirmation is sent.  When the writer
    raises, its error leaves [callback] and nothing is sent; otherwise the
    store holds what the writer made of the document whether the
    confirmation can be sent or not, and when the send fails its error
    leaves [callback] and the log line is not written.  When the text
    written reads back as the document, be it with other display names,
    [start] no longer offers the plugin. *)
Theorem pressed_subscribe_button write list_set self chat name w :
  set_order list_set -> store.reached write (store w) ->
  ~ store.unparseable (store w) ->
  free_of space name = true ->
  exists data l,
    store.subscribe_data list_set (commands.id chat) name
      (Some (commands.fmt (commands.first_name chat) ++ " "
             ++ commands.fmt (commands.last_name chat))%string) (store w)
    = Ok data
    /\ subscriptions (commands.id chat) (Doc data) = Ok (VList l)
    /\ In (VStr name) l
    /\ store.callback write list_set self chat ("subscribe " ++ name) w
       = match write data with
         | Raise e => (Raise e, w)
         | Ok f' =>
             match send_message (updater_bot self) (commands.id chat)
                     ("Successfully subscribed to "
                      ++ commands.or_else
                           (commands.plugin_long_name_from_short_name self name)
                           "???")
             with
             | None =>
                 (Ok tt,
                  {| store := f'; secrets := secrets w;
                     trace := trace w
                       ++ [SendMessage (commands.id chat)
                             ("Successfully subscribed to "
                              ++ commands.or_else
                                   (commands.plugin_long_name_from_short_name
                                      self name) "???");
                           Log INFO ("Subscribe: "
                                     ++ commands.fmt (commands.first_name chat)
                                     ++ " "
                                     ++ commands.fmt (commands.last_name chat)
                                     ++ " (" ++ str (commands.id chat)
                                     ++ ") to " ++ name)] |})
             | Some e =>
                 (Raise (TelegramError e),
                  {| store := f'; secrets := secrets w;
                     trace := trace w
                       ++ [SendMessage (commands.id chat)
                             ("Successfully subscribed to "
                              ++ commands.or_else
                                   (commands.plugin_long_name_from_short_name
                                      self name) "???")] |})
             end
         end
    /\ (store.renamed write data ->
        forall rs,
          commands.start self chat
            (after (store.subscribe write list_set (commands.id chat) name
                      (Some (commands.fmt (commands.first_name chat) ++ " "
                             ++ commands.fmt (commands.last_name chat))%string))
               (store w)) = Ok rs ->
          ~ In ("subscribe " ++ name)%string (commands.offered rs)).
Proof.
  intros Hord Hreach Hparse Hfree.
  destruct (reached_wf write _ Hreach) as [Hwf|Hunp]; [|tauto].
  destruct (subscriptions_wf (store w) (commands.id chat) Hwf) as (l0 & Hl0).
  destruct (subscribe_data_list list_set (commands.id chat) name
              (Some (commands.fmt (commands.first_name chat) ++ " "
                     ++ commands.fmt (commands.last_name chat))%string)
              (store w) l0 Hord Hl0) as (data & Hd & Hget & _).
  assert (Hname : In name (list_set (l0 ++ [name]))).
  { apply (Hord (l0 ++ [name])), in_app_iff. simpl. auto. }
  exists data, (map VStr (list_set (l0 ++ [name]))).
  split; [exact Hd|]. split; [exact Hget|].
  split; [now apply In_VStr_map|]. split.
  - unfold store.callback.
    change ("subscribe " ++ name)%string with ("subscribe" ++ " " ++ name)%string.
    rewrite split_button_data by auto.
    cbn [String.eqb Ascii.eqb Bool.eqb].
    unfold bindM, commands.update_store, store.subscribe. rewrite Hd.
    cbn [bind]. destruct (write data) as [f'|e]; [|reflexivity].
    unfold bot_send_message, attempt, bindM, emit, logging_info, emit, ret, raise.
    cbn [store secrets trace add_trace].
    destruct (send_message (updater_bot self) (commands.id chat) _);
      unfold add_trace; cbn [store secrets trace]; auto.
    now rewrite <- app_assoc.
  - intros (data' & Hw & Hall) rs. rewrite after_subscribe, Hd, Hw.
    intros Hrs.
    rewrite <- (names_altered_subscriptions _ _ (commands.id chat) Hall)
      in Hget.
    destruct (start_offered self chat (Doc data') _ Hget) as (rs' & Hrs' & Hoff).
    rewrite Hrs in Hrs'. injection Hrs' as <-. rewrite Hoff.
    change ("subscribe " ++ name)%string with ("subscribe" ++ " " ++ name)%string.
    rewrite offered_filter. intros (p & _ & Hk). simpl in Hk.
    apply negb_true_iff in Hk.
    pose proof (proj2 (contains_strings name _) Hname) as Hc.
    simpl in Hc. congruence.
Qed.

Lemma pressed_subscribe_button_witness :
  exists data l,
    store.subscribe_data nodup_str (commands.id ann) "late"
      (Some (commands.fmt (commands.first_name ann) ++ " "
             ++ commands.fmt (commands.last_name ann))%string) (store world1)
    = Ok data
    /\ subscriptions (commands.id ann) (Doc data) = Ok (VList l)
    /\ In (VStr "late") l
    /\ store.callback store.exact_writer nodup_str kim_bot ann
         ("subscribe " ++ "late") world1
       = match store.exact_writer data with
         | Raise e => (Raise e, world1)
         | Ok f' =>
             match send_message (updater_bot kim_bot) (commands.id ann)
                     ("Successfully subscribed to "
                      ++ commands.or_else
                           (commands.plugin_long_name_from_short_name
                              kim_bot "late") "???")
             with
             | None =>
                 (Ok tt,
                  {| store := f'; secrets := secrets world1;
                     trace := trace world1
                       ++ [SendMessage (commands.id ann)
                             ("Successfully subscribed to "
                              ++ commands.or_else
                                   (commands.plugin_long_name_from_short_name
                                      kim_bot "late") "???");
                           Log INFO ("Subscribe: "
                                     ++ commands.fmt (commands.first_name ann)
                                     ++ " "
                                     ++ commands.fmt (commands.last_name ann)
                                     ++ " (" ++ str (commands.id ann)
                                     ++ ") to " ++ "late")] |})
             | Some e =>
                 (Raise (TelegramError e),
                  {| store := f'; secrets := secrets world1;
                     trace := trace world1
                       ++ [SendMessage (commands.id ann)
                             ("Successfully subscribed to "
                              ++ commands.or_else
                                   (commands.plugin_long_name_from_short_name
                                      kim_bot "late") "???")] |})
             end
         end
    /\ (store.renamed store.exact_writer data ->
        forall rs,
          commands.start kim_bot ann
            (after (store.subscribe store.exact_writer nodup_str
                      (commands.id ann) "late"
                      (Some (commands.fmt (commands.first_name ann) ++ " "
                             ++ commands.fmt (commands.last_name ann))%string))
               (store world1)) = Ok rs ->
          ~ In ("subscribe " ++ "late")%string (commands.offered rs)).
Proof.
  apply (pressed_subscribe_button store.exact_writer nodup_str kim_bot ann
           "late" world1).
  - apply nodup_str_order.
  - apply example_store_is_reached.
  - intros [H|H]; discriminate H.
  - reflexivity.
Defined.

(** ** The record [subscribe] writes *)

(** X20. When [subscribe(u, p, name)] gets as far as its write, the
    document it hands to the writer holds for [u] a table whose display
    name is [name] if one was given and the name read from the file
    otherwise; a user the file already knows keeps its place among the
    users, and a new user is added after all the others.  The file
    afterwards is what the writer makes of that document. *)
Theorem subscribe_record_shape list_set u p n f data :
  store.subscribe_data list_set u p n f = Ok data ->
  exists d t',
    load_or_empty f = Ok d
    /\ dict_get (str u) data = Some (VDict t')
    /\ dict_get "name" t'
       = match n with
         | Some s => Some (VStr s)
         | None =>
             match dict_get (str u) d with
             | Some (VDict t) => dict_get "name" t
             | _ => None
             end
         end
    /\ keys data = (if dict_mem (str u) d then keys d else keys d ++ [str u])
    /\ forall write, store.subscribe write list_set u p n f = write data.
Proof.
  intros H. pose proof H as Hd0. rewrite subscribe_data_eq in H.
  destruct (load_or_empty f) as [d|e] eqn:Hd; simpl in H; [|discriminate].
  destruct (table_of (dict_get (str u) d)) as [t|e] eqn:Ht; simpl in H;
    [|discriminate].
  destruct (py_add (old_subs t) [VStr p]) as [joined|e]; simpl in H;
    [|discriminate].
  destruct (hashables joined) as [elems|e]; simpl in H; [|discriminate].
  injection H as <-. eexists d, _. split; [reflexivity|].
  split; [apply dict_get_set_eq|]. split; [|split].
  - destruct n as [s|]; simpl.
    + apply dict_get_set_eq.
    + rewrite dict_get_set_neq by discriminate.
      destruct (dict_get (str u) d) as [[s|l|t0]|]; simpl in Ht;
        try discriminate; injection Ht as <-; reflexivity.
  - destruct (dict_mem (str u) d) eqn:Hm.
    + now apply keys_set_present.
    + now apply keys_set_absent.
  - intros write. unfold store.subscribe. now rewrite Hd0.
Qed.

Lemma subscribe_record_shape_witness :
  exists d t',
    load_or_empty example_store = Ok d
    /\ dict_get (str 7)
         [("7", VDict [("subscriptions", VList [VStr "kjilat"; VStr "panda"]);
                       ("name", VStr "Bo")]);
          ("42", VDict [("subscriptions", VList [VStr "kjilat"; VStr "panda"])])]
       = Some (VDict t')
    /\ dict_get "name" t'
       = match @None string with
         | Some s => Some (VStr s)
         | None =>
             match dict_get (str 7) d with
             | Some (VDict t) => dict_get "name" t
             | _ => None
             end
         end
    /\ keys [("7", VDict [("subscriptions", VList [VStr "kjilat"; VStr "panda"]);
                          ("name", VStr "Bo")]);
             ("42", VDict [("subscriptions",
                            VList [VStr "kjilat"; VStr "panda"])])]
       = (if dict_mem (str 7) d then keys d else keys d ++ [str 7])
    /\ forall write,
         store.subscribe write nodup_str 7 "panda" None example_store
         = write
             [("7", VDict [("subscriptions", VList [VStr "kjilat"; VStr "panda"]);
                           ("name", VStr "Bo")]);
              ("42", VDict [("subscriptions",
                             VList [VStr "kjilat"; VStr "panda"])])].
Proof.
  apply (subscribe_record_shape nodup_str 7 "panda" None example_store).
  reflexivity.
Defined.
